(** * gmail-claude-runner: the notification dedup-and-dispatch pipeline

    A shallow embedding of [src/notification_handler.py] together with the
    parts of [src/gmail_service.py] and [src/claude_service.py] it drives.

    Conventions of the embedding.
    - A Python [str] is the [string] of its code points, one character per
      code point, each below 256 (ASCII and Latin-1); text with higher code
      points is outside the model.  On that range [lower], [strip], [in] and
      [len] are Python's; [upper] is Python's except on the three characters
      whose upper-case form leaves the range (see [PyStr.upper_char]).
    - Python floats (time stamps) are exact rationals [Qc]; the code only
      compares them and tests them for zero.
    - The three sets of the handler are [gset]s.
    - Stateful code is written in a state-and-exception monad [M] over a
      [world] that holds the handler's mutable fields together with what the
      outside can observe: the replies handed to the mail API, the agent
      invocations, the sleeps.  Answers of the outside (mail API, agent,
      clock) come from an oracle indexed by the number of external calls made
      so far, so the same call may answer differently at different times. *)

From Stdlib Require Import Ascii String QArith Qcanon.
From stdpp Require Import gmap strings list numbers pretty.

Open Scope string_scope.

(** ** Python string operations *)

Module PyStr.

Definition code (c : ascii) : nat := nat_of_ascii c.

Definition between (lo hi : nat) (c : ascii) : bool :=
  Nat.leb lo (code c) && Nat.leb (code c) hi.

(** [c.lower() != c] for a code point below 256: A-Z and the Latin-1
    capitals U+00C0-U+00DE, the multiplication sign U+00D7 excepted. *)
Definition is_upper (c : ascii) : bool :=
  between 65 90 c || between 192 214 c || between 216 222 c.

(** The code points below 256 whose upper-case form is the code point 32
    below: a-z and the Latin-1 small letters U+00E0-U+00FE, the division sign
    U+00F7 excepted. *)
Definition is_lower (c : ascii) : bool :=
  between 97 122 c || between 224 246 c || between 248 254 c.

(** [str.lower] on one code point: its lower-case form is always 32 above. *)
Definition lower_char (c : ascii) : ascii :=
  if is_upper c then ascii_of_nat (code c + 32) else c.

(** [str.upper] on one code point.  The micro sign U+00B5, the sharp s
    U+00DF and y with diaeresis U+00FF have upper-case forms that are not one
    code point below 256 (U+039C, "SS", U+0178); they are returned as they
    are.  The code calls [upper] only to compare the result with ["CLAUDE"],
    in which neither these characters nor their upper-case forms occur, so
    the outcome of that comparison is Python's. *)
Definition upper_char (c : ascii) : ascii :=
  if is_lower c then ascii_of_nat (code c - 32) else c.

(** [str.isspace] on one code point below 256: TAB, LF, VT, FF, CR, FS, GS,
    RS, US, SP, NEL (U+0085) and NBSP (U+00A0); these are what [str.strip]
    removes. *)
Definition is_space (c : ascii) : bool :=
  between 9 13 c || between 28 32 c || between 133 133 c || between 160 160 c.

Fixpoint smap (f : ascii -> ascii) (s : string) : string :=
  match s with
  | EmptyString => EmptyString
  | String c r => String (f c) (smap f r)
  end.

Definition lower : string -> string := smap lower_char.
Definition upper : string -> string := smap upper_char.

Definition is_empty (s : string) : bool :=
  match s with EmptyString => true | _ => false end.

Fixpoint lstrip (s : string) : string :=
  match s with
  | EmptyString => EmptyString
  | String c r => if is_space c then lstrip r else s
  end.

Fixpoint rstrip (s : string) : string :=
  match s with
  | EmptyString => EmptyString
  | String c r =>
      let r' := rstrip r in
      if is_space c && is_empty r' then EmptyString else String c r'
  end.

(** [s.strip()] *)
Definition strip (s : string) : string := lstrip (rstrip s).

(** [s.startswith(p)] *)
Fixpoint startswith (p s : string) : bool :=
  match p, s with
  | EmptyString, _ => true
  | String a p', String b s' => if Ascii.eqb a b then startswith p' s' else false
  | String _ _, EmptyString => false
  end.

(** [p in s] *)
Fixpoint contains (p s : string) : bool :=
  startswith p s ||
  match s with
  | EmptyString => false
  | String _ r => contains p r
  end.

(** [c in s] for a single character. *)
Fixpoint has_char (c : ascii) (s : string) : bool :=
  match s with
  | EmptyString => false
  | String a r => Ascii.eqb a c || has_char c r
  end.

(** The text before the first [c] (all of [s] when there is none):
    [s.split(c)[0]]. *)
Fixpoint before_first (c : ascii) (s : string) : string :=
  match s with
  | EmptyString => EmptyString
  | String a r => if Ascii.eqb a c then EmptyString else String a (before_first c r)
  end.

(** The text after the first [c]; only used when [c] occurs in [s]. *)
Fixpoint after_first (c : ascii) (s : string) : string :=
  match s with
  | EmptyString => EmptyString
  | String a r => if Ascii.eqb a c then r else after_first c r
  end.

(** ['\n'.join(parts)] *)
Fixpoint join_lines (parts : list string) : string :=
  match parts with
  | [] => EmptyString
  | [p] => p
  | p :: rest => p +:+ String "010" (join_lines rest)
  end.

Definition eqb (a b : string) : bool := String.eqb a b.

End PyStr.

(** ** Exceptions and the retry wrapper's view of them *)

Inductive exn_class :=
  | SSLError | HttpError | ConnectionError | OSError
  | ValueError | OtherException.

Record exn := Exn { exn_cls : exn_class; exn_msg : string }.

(** The classes caught by [retry_gmail_operation]:
    [except (ssl.SSLError, HttpError, ConnectionError, OSError)]. *)
Definition is_transient (e : exn) : bool :=
  match exn_cls e with
  | SSLError | HttpError | ConnectionError | OSError => true
  | ValueError | OtherException => false
  end.

Inductive outcome (A : Type) :=
  | Returned (a : A)
  | Raised (e : exn).
Arguments Returned {A} a.
Arguments Raised {A} e.

(** ** Data crossing the mail API, the agent and the transport *)

(** [message.get('internalDate', 0)] followed by [int(...)]: the field may be
    missing, hold an integer, or hold text that [int] rejects. *)
Inductive int_field :=
  | FieldMissing
  | FieldInt (z : Z)
  | FieldMalformed.

(** A message resource as [get_message] returns it ([format='full']):
    its headers, the decoded [text/plain] leaves of its payload in order,
    [internalDate] and [threadId]. *)
Record message := Message {
  msg_headers : list (string * string);
  msg_text_parts : list string;
  msg_internalDate : int_field;
  msg_threadId : option string;
}.

(** One entry of [history().list()]: only [messagesAdded] (ids) is read. *)
Record history_item := HistoryItem {
  messagesAdded : option (list string);
}.

Record notification := Notification {
  emailAddress : option string;
  historyId : option string;
}.

(** What [send_reply_email] hands to [messages().send]. *)
Record reply := Reply {
  reply_thread : string;
  reply_to : string;
  reply_subject : string;
  reply_body : string;
}.

(** One run of the [claude] subprocess: the text items of its assistant
    messages in order, and, when the run fails (spawn error, non-zero return
    code), the text of the failure. *)
Record agent_script := AgentScript {
  agent_chunks : list string;
  agent_failure : option string;
}.

(** The outside world, as an oracle.  The first argument of every field is
    the number of external calls made so far. *)
Record outside := Outside {
  api_get_message : nat -> string -> outcome message;
  api_list_messages : nat -> string -> nat -> outcome (list string);
  api_list_history : nat -> option string -> outcome (list history_item);
  api_send : nat -> reply -> outcome (option string);
  agent_session : nat -> string -> string -> agent_script;
  wall_clock : nat -> Qc;
}.

(** ** The handler's mutable state and what the outside observes *)

Record world := World {
  tick : nat;
  slept : list nat;
  processed_messages : gset string;
  processed_history_ids : gset (option string);
  sent_message_ids : gset string;
  last_cleanup_time : Qc;
  outbox : list reply;
  agent_calls : list (string * string);
}.

Definition bump (w : world) : world :=
  World (S (tick w)) (slept w) (processed_messages w) (processed_history_ids w)
        (sent_message_ids w) (last_cleanup_time w) (outbox w) (agent_calls w).

Definition with_slept (d : nat) (w : world) : world :=
  World (tick w) (d :: slept w) (processed_messages w) (processed_history_ids w)
        (sent_message_ids w) (last_cleanup_time w) (outbox w) (agent_calls w).

Definition with_processed_messages (s : gset string) (w : world) : world :=
  World (tick w) (slept w) s (processed_history_ids w)
        (sent_message_ids w) (last_cleanup_time w) (outbox w) (agent_calls w).

Definition with_processed_history_ids (s : gset (option string)) (w : world) : world :=
  World (tick w) (slept w) (processed_messages w) s
        (sent_message_ids w) (last_cleanup_time w) (outbox w) (agent_calls w).

Definition with_sent_message_ids (s : gset string) (w : world) : world :=
  World (tick w) (slept w) (processed_messages w) (processed_history_ids w)
        s (last_cleanup_time w) (outbox w) (agent_calls w).

Definition with_last_cleanup_time (t : Qc) (w : world) : world :=
  World (tick w) (slept w) (processed_messages w) (processed_history_ids w)
        (sent_message_ids w) t (outbox w) (agent_calls w).

Definition with_outbox (r : reply) (w : world) : world :=
  World (tick w) (slept w) (processed_messages w) (processed_history_ids w)
        (sent_message_ids w) (last_cleanup_time w) (r :: outbox w) (agent_calls w).

Definition with_agent_call (c : string * string) (w : world) : world :=
  World (tick w) (slept w) (processed_messages w) (processed_history_ids w)
        (sent_message_ids w) (last_cleanup_time w) (outbox w) (c :: agent_calls w).

(** ** The state-and-exception monad *)

Definition M (A : Type) : Type := world -> outcome A * world.

Definition ret {A} (a : A) : M A := fun w => (Returned a, w).

Definition raise {A} (e : exn) : M A := fun w => (Raised e, w).

Definition bind {A B} (m : M A) (k : A -> M B) : M B :=
  fun w =>
    match m w with
    | (Returned a, w') => k a w'
    | (Raised e, w') => (Raised e, w')
    end.

(** [try: m  except <any Exception> as e: h e] *)
Definition try_except {A} (m : M A) (h : exn -> M A) : M A :=
  fun w =>
    match m w with
    | (Returned a, w') => (Returned a, w')
    | (Raised e, w') => h e w'
    end.

Notation "'let*' x ':=' m 'in' k" := (bind m (fun x => k))
  (at level 10, x name, m at level 100, k at level 200).
Notation "m ';;' k" := (bind m (fun _ => k))
  (at level 100, k at level 200, right associativity).

Definition get_world : M world := fun w => (Returned w, w).
Definition modify (f : world -> world) : M unit := fun w => (Returned tt, f w).

(** One call that leaves the process; the oracle answers by the tick. *)
Definition external {A} (f : nat -> outcome A) : M A :=
  fun w => (f (tick w), bump w).

(** [time.sleep(d)] *)
Definition sleep (d : nat) : M unit := modify (with_slept d).

(** [for x in l: body x] *)
Fixpoint for_each {A} (l : list A) (body : A -> M unit) : M unit :=
  match l with
  | [] => ret tt
  | x :: r => body x ;; for_each r body
  end.

(** Python truthiness of the values the handler tests. *)
Definition truthy_str (s : option string) : bool :=
  match s with
  | Some s => negb (PyStr.is_empty s)
  | None => false
  end.

(** ** [NotificationHandler.retry_gmail_operation] *)

(** The body of [for attempt in range(max_retries)], with [remaining]
    iterations left, the next one numbered [attempt]. *)
Fixpoint retry_loop {A} (operation : M A) (max_retries delay : nat)
    (remaining attempt : nat) : M (option A) :=
  match remaining with
  | 0 => ret None
  | S remaining' =>
      try_except
        (let* v := operation in ret (Some v))
        (fun e =>
           if is_transient e then
             if Nat.eqb attempt (max_retries - 1) then ret None
             else
               sleep (delay * 2 ^ attempt) ;;
               retry_loop operation max_retries delay remaining' (S attempt)
           else raise e)
  end.

Definition retry_gmail_operation {A} (operation : M A)
    (max_retries delay : nat) : M (option A) :=
  retry_loop operation max_retries delay max_retries 0.

(** The call sites all use the defaults [max_retries=3, delay=2]. *)
Definition retry {A} (operation : M A) : M (option A) :=
  retry_gmail_operation operation 3 2.

(** ** [GmailService] *)

(** [f"Re: {subject}" if not subject.startswith('Re:') else subject] *)
Definition reply_subject_for (subject : string) : string :=
  if PyStr.startswith "Re:" subject then subject else "Re: " +:+ subject.

Section Services.

Variable out : outside.

Definition get_message (message_id : string) : M message :=
  external (fun t => api_get_message out t message_id).

Fixpoint find_header (name : string) (headers : list (string * string))
    : option string :=
  match headers with
  | [] => None
  | (n, v) :: r =>
      if PyStr.eqb (PyStr.lower n) name then Some v else find_header name r
  end.

(** ["Name <email@example.com>"] to the address between the brackets. *)
Definition extract_address (v : string) : string :=
  if PyStr.has_char "<" v && PyStr.has_char ">" v
  then PyStr.before_first ">" (PyStr.before_first "<" (PyStr.after_first "<" v))
  else v.

Definition get_sender_email (message_id : string) : M string :=
  let* m := get_message message_id in
  match find_header "from" (msg_headers m) with
  | Some v => ret (extract_address v)
  | None => ret EmptyString
  end.

Definition get_recipient_email (message_id : string) : M string :=
  let* m := get_message message_id in
  match find_header "to" (msg_headers m) with
  | Some v => ret (extract_address v)
  | None => ret EmptyString
  end.

Definition get_subject (message_id : string) : M string :=
  let* m := get_message message_id in
  match find_header "subject" (msg_headers m) with
  | Some v => ret v
  | None => ret EmptyString
  end.

Definition get_message_content (message_id : string) : M string :=
  let* m := get_message message_id in
  ret (PyStr.join_lines (msg_text_parts m)).

(** [internal_date_ms / 1000.0], with [HttpError] and [ValueError] turned
    into [0.0]. *)
Definition get_message_timestamp (message_id : string) : M Qc :=
  try_except
    (let* m := get_message message_id in
     match msg_internalDate m with
     | FieldMissing => ret (Qc_of_Z 0 / Qc_of_Z 1000)%Qc
     | FieldInt z => ret (Qc_of_Z z / Qc_of_Z 1000)%Qc
     | FieldMalformed => raise (Exn ValueError "invalid literal for int()")
     end)
    (fun e =>
       match exn_cls e with
       | HttpError | ValueError => ret (Qc_of_Z 0)
       | _ => raise e
       end).

Definition get_recent_messages (query : string) (max_results : nat)
    : M (list string) :=
  external (fun t => api_list_messages out t query max_results).

Definition get_history (start_history_id : option string)
    : M (list history_item) :=
  external (fun t => api_list_history out t start_history_id).

Definition get_thread_id (message_id : string) : M string :=
  try_except
    (let* m := get_message message_id in
     match msg_threadId m with
     | Some t => ret t
     | None => ret EmptyString
     end)
    (fun e =>
       match exn_cls e with
       | HttpError => ret EmptyString
       | _ => raise e
       end).

(** [messages().send(...).execute()]: the reply reaches the mail API. *)
Definition post (r : reply) : M (option string) :=
  fun w => (api_send out (tick w) r, with_outbox r (bump w)).

Definition send_reply_email (thread_id to_email subject body : string)
    : M (option string) :=
  try_except
    (post (Reply thread_id to_email (reply_subject_for subject) body))
    (fun e =>
       match exn_cls e with
       | HttpError => ret None
       | _ => raise e
       end).

(** ** [ClaudeService.process_email_request_streaming]

    The callback is a closure over a list the caller owns; that list is
    passed and returned explicitly ([S] is its type). *)

Fixpoint stream {S} (progress_callback : S -> string -> M S) (s : S)
    (chunks : list string) : M S :=
  match chunks with
  | [] => ret s
  | text :: rest =>
      let* s' := progress_callback s text in
      stream progress_callback s' rest
  end.

Definition start_session (message_content sender_email : string)
    : M agent_script :=
  fun w => (Returned (agent_session out (tick w) message_content sender_email),
            with_agent_call (message_content, sender_email) (bump w)).

Definition process_email_request_streaming {S}
    (message_content sender_email : string)
    (progress_callback : S -> string -> M S) (s : S) : M string :=
  try_except
    (let* script := start_session message_content sender_email in
     stream progress_callback s (agent_chunks script) ;;
     match agent_failure script with
     | Some err => raise (Exn OtherException err)
     | None =>
         match agent_chunks script with
         | [] => ret "Claude session completed successfully."
         | responses => ret (PyStr.join_lines responses)
         end
     end)
    (fun error =>
       raise (Exn OtherException
                ("Error launching Claude session: " +:+ exn_msg error))).

End Services.

(** ** [NotificationHandler] *)

(** *** Eligibility filter *)

Definition system_patterns : list string :=
  [ "ack";
    "Progress update:";
    "Task completed!";
    "Claude processing failed with error:";
    "Processing with Claude Code";
    "Claude response generated" ].

(** The first pattern of the list that occurs, lower-cased, in the text. *)
Fixpoint first_pattern (content_lower : string) (patterns : list string)
    : option string :=
  match patterns with
  | [] => None
  | pattern :: rest =>
      if PyStr.contains (PyStr.lower pattern) content_lower
      then Some pattern
      else first_pattern content_lower rest
  end.

(** [is_system_generated_email], as a function of the set it reads. *)
Definition system_generated (sent : gset string)
    (message_content sender_email message_id : string) : bool * string :=
  if bool_decide (message_id ∈ sent) then
    (true, "Email was sent by this system")
  else
    let content_lower := PyStr.strip (PyStr.lower message_content) in
    match first_pattern content_lower system_patterns with
    | Some pattern =>
        (true, "Email contains system pattern: '" +:+ pattern +:+ "'")
    | None =>
        if Nat.ltb (String.length content_lower) 10
        then (true, "Email is too short (likely system-generated)")
        else (false, "Email appears to be user-generated")
    end.

Definition is_system_generated_email
    (message_content sender_email message_id : string) : M (bool * string) :=
  let* w := get_world in
  ret (system_generated (sent_message_ids w)
         message_content sender_email message_id).

(** Lines 136-148 of [is_valid_claude_email]: the three comparisons, once
    sender, recipient and subject have been fetched. *)
Definition check_criteria (sender recipient subject : string) : bool * string :=
  if negb (PyStr.eqb (PyStr.lower sender) "jonathanmingli@gmail.com") then
    (false, "Sender " +:+ sender +:+ " is not jonathanmingli@gmail.com")
  else if negb (PyStr.eqb (PyStr.lower recipient) "jonathanmingli@gmail.com") then
    (false, "Recipient " +:+ recipient +:+ " is not jonathanmingli@gmail.com")
  else if negb (PyStr.eqb (PyStr.upper subject) "CLAUDE") then
    (false, "Subject '" +:+ subject +:+ "' is not 'CLAUDE'")
  else
    (true, "Email meets all criteria for Claude processing").

(** [Config.target_email] and [Config.required_subject]. *)
Definition target_email : string := "jonathanmingli@gmail.com".
Definition required_subject : string := "CLAUDE".

(** *** The four reply bodies *)

(** ["ack"] *)
Definition ack_email : string := "ack".

(** [f"Progress update:\n\n{update_text}"] *)
Definition progress_email (update_text : string) : string :=
  "Progress update:" +:+ String "010" (String "010" update_text).

(** [f"Task completed!\n\n{response}"] *)
Definition final_email (response : string) : string :=
  "Task completed!" +:+ String "010" (String "010" response).

(** [f"Claude processing failed with error: {str(claude_error)}"] *)
Definition error_message (claude_error : exn) : string :=
  "Claude processing failed with error: " +:+ exn_msg claude_error.

(** *** Ledger compaction *)

(** [set(list(s)[-n:])]: the order of [list(s)] is whatever the set gives. *)
Definition keep_last `{Countable K} (n : nat) (s : gset K) : gset K :=
  list_to_set (drop (List.length (elements s) - n) (elements s)).

Definition trim `{Countable K} (cap retained : nat) (s : gset K) : gset K :=
  if Nat.ltb cap (size s) then keep_last retained s else s.

Section Handler.

Variable out : outside.
Variable server_start_time : Qc.

Definition is_valid_claude_email (message_id : string) : M (bool * string) :=
  try_except
    (let* sender := retry (get_sender_email out message_id) in
     let* recipient := retry (get_recipient_email out message_id) in
     let* subject := retry (get_subject out message_id) in
     match sender, recipient, subject with
     | Some sender, Some recipient, Some subject =>
         ret (check_criteria sender recipient subject)
     | _, _, _ =>
         ret (false, "Failed to retrieve email details due to network errors")
     end)
    (fun e => ret (false, "Error checking email criteria: " +:+ exn_msg e)).

(** [time.time()] *)
Definition now : M Qc :=
  external (fun t => Returned (wall_clock out t)).

Definition cleanup_processed_messages : M unit :=
  let* current_time := now in
  let* w := get_world in
  if bool_decide (Qc_of_Z 3600 < current_time - last_cleanup_time w)%Qc then
    modify (fun w => with_processed_messages
                       (trim 100 50 (processed_messages w)) w) ;;
    modify (fun w => with_processed_history_ids
                       (trim 100 50 (processed_history_ids w)) w) ;;
    modify (fun w => with_sent_message_ids
                       (trim 50 25 (sent_message_ids w)) w) ;;
    modify (with_last_cleanup_time current_time)
  else ret tt.

(** *** Replies *)

(** [id = retry(send_reply_email(...)); if id: sent_message_ids.add(id)]. *)
Definition send_and_track (thread_id sender_email subject body : string)
    : M unit :=
  let* sent := retry (send_reply_email out thread_id sender_email subject body) in
  match mjoin sent with
  | Some reply_id =>
      if PyStr.is_empty reply_id then ret tt
      else modify (fun w => with_sent_message_ids
                              ({[ reply_id ]} ∪ sent_message_ids w) w)
  | None => ret tt
  end.

(** The closure [progress_callback]; [progress_updates] is the list it
    appends to. *)
Definition progress_callback (thread_id : option string)
    (sender_email subject : string)
    (progress_updates : list string) (update_text : string)
    : M (list string) :=
  let progress_updates := (progress_updates ++ [update_text])%list in
  match thread_id with
  | Some thread =>
      if negb (PyStr.is_empty thread)
         && Nat.ltb 50 (String.length update_text) then
        if Nat.eqb (List.length progress_updates `mod` 3) 0 then
          send_and_track thread sender_email subject
            (progress_email update_text) ;;
          ret progress_updates
        else ret progress_updates
      else ret progress_updates
  | None => ret progress_updates
  end.

(** *** Per-candidate processing (the body of the [for] loop)

    Each early [continue] prints its own line; [verdict] names the branch
    taken. *)

Inductive verdict :=
  | AlreadyProcessed
  | Stale
  | NotValid (reason : string)
  | NetworkSkip
  | SystemGenerated (reason : string)
  | NoSubject
  | EmptyMessage
  | Handled.

(** Lines 246-250, under [processed_messages_lock]. *)
Definition is_processed (message_id : string) : M bool :=
  let* w := get_world in
  ret (bool_decide (message_id ∈ processed_messages w)).

(** [message_timestamp and message_timestamp < self.server_start_time] *)
Definition is_stale (message_timestamp : option Qc) : bool :=
  match message_timestamp with
  | Some t =>
      negb (bool_decide (t = Qc_of_Z 0))
      && bool_decide (t < server_start_time)%Qc
  | None => false
  end.

(** Lines 252-306: every check between the dedup test and the claim.  On
    success the values later steps use are returned. *)
Definition gates (message_id : string)
    : M (verdict + (string * string * string)) :=
  let* message_timestamp := retry (get_message_timestamp out message_id) in
  if is_stale message_timestamp then ret (inl Stale) else
  let* valid := is_valid_claude_email message_id in
  if negb (fst valid) then ret (inl (NotValid (snd valid))) else
  let* message_content := retry (get_message_content out message_id) in
  let* sender_email := retry (get_sender_email out message_id) in
  match message_content, sender_email with
  | Some message_content, Some sender_email =>
      let* sys :=
        is_system_generated_email message_content sender_email message_id in
      if fst sys then ret (inl (SystemGenerated (snd sys))) else
      let* subject := retry (get_subject out message_id) in
      match subject with
      | None => ret (inl NoSubject)
      | Some subject =>
          if PyStr.is_empty (PyStr.strip message_content)
          then ret (inl EmptyMessage)
          else ret (inr (message_content, sender_email, subject))
      end
  | _, _ => ret (inl NetworkSkip)
  end.

(** Lines 308-310, under [processed_messages_lock]. *)
Definition mark_processed (message_id : string) : M unit :=
  modify (fun w => with_processed_messages
                     ({[ message_id ]} ∪ processed_messages w) w).

(** Lines 312-396: thread lookup, acknowledgment, agent run with progress
    replies, final or error reply. *)
Definition respond (message_id message_content sender_email subject : string)
    : M unit :=
  let* thread_id := retry (get_thread_id out message_id) in
  (if truthy_str thread_id
   then send_and_track (default EmptyString thread_id) sender_email subject ack_email
   else ret tt) ;;
  try_except
    (let* response :=
       process_email_request_streaming out message_content sender_email
         (progress_callback thread_id sender_email subject) [] in
     if truthy_str thread_id && negb (PyStr.is_empty response) then
       send_and_track (default EmptyString thread_id) sender_email subject
         (final_email response)
     else ret tt)
    (fun claude_error =>
       if truthy_str thread_id then
         send_and_track (default EmptyString thread_id) sender_email subject
           (error_message claude_error)
       else ret tt).

Definition process_message (message_id : string) : M verdict :=
  let* seen := is_processed message_id in
  if seen then ret AlreadyProcessed else
  let* passed := gates message_id in
  match passed with
  | inl skipped => ret skipped
  | inr (message_content, sender_email, subject) =>
      mark_processed message_id ;;
      respond message_id message_content sender_email subject ;;
      ret Handled
  end.

(** *** [process_notification] *)

(** Lines 194-198, under [processed_history_ids_lock]: check and insert in
    one critical section.  [true] when the id was new. *)
Definition claim_history (history_id : option string) : M bool :=
  let* w := get_world in
  if bool_decide (history_id ∈ processed_history_ids w) then ret false
  else
    modify (fun w => with_processed_history_ids
                       ({[ history_id ]} ∪ processed_history_ids w) w) ;;
    ret true.

Definition extract_added (history_changes : list history_item) : list string :=
  flat_map (fun item => default [] (messagesAdded item)) history_changes.

Definition unread_fallback : M (option (list string)) :=
  retry (get_recent_messages out "is:unread" 5).

(** Lines 201-232: [recent_messages], or [None] when unavailable. *)
Definition resolve (history_id : option string) : M (option (list string)) :=
  try_except
    (let* history_changes := retry (get_history out history_id) in
     match history_changes with
     | Some (item :: items) => ret (Some (extract_added (item :: items)))
     | _ => unread_fallback
     end)
    (fun e => unread_fallback).

Definition process_notification (notification_data : notification) : M unit :=
  try_except
    (cleanup_processed_messages ;;
     let history_id := historyId notification_data in
     let* fresh := claim_history history_id in
     if negb fresh then ret tt else
     let* recent_messages := resolve history_id in
     match recent_messages with
     | None => ret tt
     | Some recent_messages =>
         for_each recent_messages
           (fun message_id => process_message message_id ;; ret tt)
     end)
    (fun error => ret tt).

(** *** [callback]: the pull-mode receiver

    An envelope carries what [decode_notification_data] makes of its payload
    (a notification, or the exception it re-raises) and whether the 600 s
    wait on the worker's future runs out. *)

Record envelope := Envelope {
  decoded : outcome notification;
  times_out : bool;
}.

Inductive transport_signal := Ack | Nack.

Definition callback (message : envelope) (w : world)
    : transport_signal * world :=
  match decoded message with
  | Raised _ => (Nack, w)
  | Returned notification_data =>
      let (result, w') := process_notification notification_data w in
      if times_out message then (Nack, w')
      else
        match result with
        | Returned _ => (Ack, w')
        | Raised _ => (Nack, w')
        end
  end.

(** *** The worker pool

    Workers share the [world].  A worker handling one candidate goes through
    the four blocks of [process_message]; a block runs without interruption
    (the two that touch [processed_messages] hold its lock), and between
    blocks any other worker may run. *)

Inductive pc :=
  | AtCheck (message_id : string)
  | AtGates (message_id : string)
  | AtMark (message_id message_content sender_email subject : string)
  | AtRespond (message_id message_content sender_email subject : string)
  | Finished.

Definition worker_step (p : pc) (w : world) : pc * world :=
  match p with
  | AtCheck message_id =>
      match is_processed message_id w with
      | (Returned false, w') => (AtGates message_id, w')
      | (_, w') => (Finished, w')
      end
  | AtGates message_id =>
      match gates message_id w with
      | (Returned (inr (message_content, sender_email, subject)), w') =>
          (AtMark message_id message_content sender_email subject, w')
      | (_, w') => (Finished, w')
      end
  | AtMark message_id message_content sender_email subject =>
      (AtRespond message_id message_content sender_email subject,
       snd (mark_processed message_id w))
  | AtRespond message_id message_content sender_email subject =>
      (Finished, snd (respond message_id message_content sender_email subject w))
  | Finished => (Finished, w)
  end.

(** A schedule names the worker that runs its next block. *)
Fixpoint run_schedule (schedule : list nat) (workers : list pc) (w : world)
    : list pc * world :=
  match schedule with
  | [] => (workers, w)
  | i :: rest =>
      match workers !! i with
      | Some p =>
          let (p', w') := worker_step p w in
          run_schedule rest (<[ i := p' ]> workers) w'
      | None => run_schedule rest workers w
      end
  end.

End Handler.

(** ** Bookkeeping used to state results *)

(** The world after [calls] further external calls and the given sleeps
    (most recent first), nothing else touched. *)
Definition advance (calls : nat) (sleeps : list nat) (w : world) : world :=
  World (tick w + calls) (sleeps ++ slept w)%list (processed_messages w)
        (processed_history_ids w) (sent_message_ids w) (last_cleanup_time w)
        (outbox w) (agent_calls w).

(** The sleeps of attempts [first, first+1, ..., first+n-1], most recent
    first: [delay * 2 ** attempt] each. *)
Definition backoffs (delay first n : nat) : list nat :=
  rev (map (fun attempt => delay * 2 ^ attempt) (seq first n)).

(** An external call that fails with a transient-class error at tick [t]. *)
Definition transient_at {A} (f : nat -> outcome A) (t : nat) : Prop :=
  exists e, f t = Raised e /\ is_transient e = true.

(** [m] keeps [I]: whatever it returns or raises. *)
Definition preserves {A} (I : world -> Prop) (m : M A) : Prop :=
  forall w r w', m w = (r, w') -> I w -> I w'.

(** [I] does not look at the tick or at the sleeps. *)
Definition time_stable (I : world -> Prop) : Prop :=
  forall w, I w -> I (bump w) /\ forall d, I (with_slept d w).

(** What [m] can return satisfies [Q]. *)
Definition returns {A} (m : M A) (Q : A -> Prop) : Prop :=
  forall w a w', m w = (Returned a, w') -> Q a.

(** [w'] differs from [w] in tick and sleeps at most: the three sets, the
    compaction time, the replies sent and the agent invocations are the same. *)
Definition same_ledger (w w' : world) : Prop :=
  processed_messages w' = processed_messages w
  /\ processed_history_ids w' = processed_history_ids w
  /\ sent_message_ids w' = sent_message_ids w
  /\ last_cleanup_time w' = last_cleanup_time w
  /\ outbox w' = outbox w
  /\ agent_calls w' = agent_calls w.

(** The body of a reply this handler sends: one of the four forms. *)
Definition is_reply_body (b : string) : Prop :=
  b = ack_email
  \/ (exists update_text, b = progress_email update_text)
  \/ (exists response, b = final_email response)
  \/ (exists claude_error, b = error_message claude_error).

(** The text [get_message_content] makes of a message resource. *)
Definition body_of (m : message) : string :=
  PyStr.join_lines (msg_text_parts m).

(** Every reply handed to the mail API so far has one of the four bodies. *)
Definition replies_marked (w : world) : Prop :=
  Forall (fun r => is_reply_body (reply_body r)) (outbox w).

(** The first, respectively last, character exists and is not whitespace. *)
Definition solid_start (a : string) : bool :=
  match a with
  | EmptyString => false
  | String c _ => negb (PyStr.is_space c)
  end.

Fixpoint solid_end (a : string) : bool :=
  match a with
  | EmptyString => false
  | String c EmptyString => negb (PyStr.is_space c)
  | String _ r => solid_end r
  end.

(** *** Progress replies

    [forwarded seen chunks]: of the chunks streamed after [seen] earlier
    ones, those that have more than 50 characters and stand at a position
    (counting every chunk, from 1) divisible by 3. *)
Fixpoint forwarded (seen : nat) (chunks : list string) : list string :=
  match chunks with
  | [] => []
  | text :: rest =>
      if Nat.ltb 50 (String.length text) && Nat.eqb (S seen `mod` 3) 0
      then text :: forwarded (S seen) rest
      else forwarded (S seen) rest
  end.

Definition progress_reply (thread sender subject text : string) : reply :=
  Reply thread sender (reply_subject_for subject) (progress_email text).

(** The ids the mail API returns for replies sent one per tick from tick
    [t] on; an empty id is not recorded. *)
Fixpoint recorded (out : outside) (t : nat) (replies : list reply)
    : gset string :=
  match replies with
  | [] => ∅
  | r :: rest =>
      match api_send out t r with
      | Returned (Some reply_id) =>
          if PyStr.is_empty reply_id then recorded out (S t) rest
          else {[ reply_id ]} ∪ recorded out (S t) rest
      | _ => recorded out (S t) rest
      end
  end.

(** The specification's sentence, "every third chunk whose length exceeds
    50 characters is forwarded", read by its words: of the chunks longer than
    50 characters, the third, the sixth, and so on. *)
Fixpoint every_third (seen : nat) (l : list string) : list string :=
  match l with
  | [] => []
  | x :: rest =>
      if Nat.eqb (S seen `mod` 3) 0 then x :: every_third (S seen) rest
      else every_third (S seen) rest
  end.

Definition spec_forwarded (chunks : list string) : list string :=
  every_third 0 (filter (fun text => 50 < String.length text) chunks).

(** ** Scenarios *)

(** An operation that fails with a TLS error on every call. *)
Definition always_ssl_error : nat -> outcome string :=
  fun _ => Raised (Exn SSLError "EOF occurred in violation of protocol").

(** An operation whose second call fails with a [KeyError]-like exception
    after a first connection error. *)
Definition fatal_on_second : nat -> outcome string :=
  fun t =>
    if Nat.eqb t 0 then Raised (Exn ConnectionError "reset by peer")
    else Raised (Exn OtherException "KeyError: 'payload'").

Definition idle_world : world :=
  World 0 [] ∅ ∅ ∅ (Qc_of_Z 1000) [] [].


(** An eligible message from the owner to the owner, received at second
    2000, with a one-line request. *)
Definition demo_message : message :=
  Message [("From", "Jon <jonathanmingli@gmail.com>");
           ("To", "jonathanmingli@gmail.com");
           ("Subject", "claude")]
          ["do the thing"] (FieldInt 2000000) (Some "t1").

(** A chunk of 61 characters and one of 5. *)
Definition long_chunk : string :=
  "0123456789012345678901234567890123456789012345678901234567890".
Definition short_chunk : string := "short".

(** A mailbox holding one message ["m1"], whose fetches follow [fetch];
    every send is accepted and answered with a fresh id; the agent streams
    three long chunks; the clock stands at [clock]. *)
Definition scenario (fetch : nat -> outcome message) (clock : Z) : outside :=
  Outside
    (fun t message_id =>
       if PyStr.eqb message_id "m1" then fetch t
       else Raised (Exn HttpError "404"))
    (fun _ _ _ => Returned ["m1"])
    (fun _ _ => Returned [HistoryItem (Some ["m1"])])
    (fun t _ => Returned (Some ("sent-" +:+ pretty t)))
    (fun _ _ _ => AgentScript [long_chunk; long_chunk; long_chunk] None)
    (fun _ => Qc_of_Z clock).

Definition demo_out : outside := scenario (fun _ => Returned demo_message) 1000.

(** The server started at second 1000. *)
Definition demo_start : Qc := Qc_of_Z 1000.

(** *** Eligibility as the specification words it

    The specification's sentence, to compare [check_criteria] with: sender and recipient equal the configured address
    ignoring case, and the subject, trimmed, equals the configured subject
    ignoring case. *)
Definition spec_isEligible (sender recipient subject : string) : bool :=
  PyStr.eqb (PyStr.lower sender) (PyStr.lower target_email)
  && PyStr.eqb (PyStr.lower recipient) (PyStr.lower target_email)
  && PyStr.eqb (PyStr.lower (PyStr.strip subject)) (PyStr.lower required_subject).

(** *** Compaction as the specification words it

    The specification's sentence gives one soft limit of 100 to each of the
    three sets and retained sizes 50, 50 and 25; for the sent replies that
    reads as follows. *)
Definition spec_compact_sent (s : gset string) : gset string := trim 100 25 s.

(** *** The classifier as the specification words it

    The specification's sentence lists five markers (acknowledgment, progress
    update, completion, failure, processing started) and no rule of
    precedence; on a set of sent ids it reads as follows. *)
Definition spec_markers : list string :=
  [ "ack";
    "Progress update:";
    "Task completed!";
    "Claude processing failed with error:";
    "Processing with Claude Code" ].

Definition spec_isSystemGenerated (sent : gset string)
    (body message_id : string) : bool :=
  let trimmed := PyStr.strip (PyStr.lower body) in
  bool_decide (message_id ∈ sent)
  || existsb (fun marker => PyStr.contains (PyStr.lower marker) trimmed)
       spec_markers
  || Nat.ltb (String.length trimmed) 10.

(** A ledger that has recorded the reply ["m1"] as sent by this handler. *)
Definition replied_world : world :=
  World 0 [] ∅ ∅ {["m1"]} (Qc_of_Z 1000) [] [].

(** A ledger that has recorded 51 self-sent replies, last compacted at
    second 1000. *)
Definition many_ids (n : nat) : gset string :=
  list_to_set ((fun i => "id-" +:+ pretty i) <$> seq 0 n).

Definition crowded_world : world :=
  World 0 [] ∅ ∅ (many_ids 51) (Qc_of_Z 1000) [] [].

(** The same mailbox two hours later. *)
Definition late_out : outside := scenario (fun _ => Returned demo_message) 8200.

(** The acknowledgment of an earlier request, come back as a message that
    meets the sender, recipient and subject criteria. *)
Definition echo_message : message :=
  Message [("From", "jonathanmingli@gmail.com");
           ("To", "jonathanmingli@gmail.com");
           ("Subject", "CLAUDE")]
          ["ack"] (FieldInt 2000000) (Some "t1").

Definition echo_out : outside := scenario (fun _ => Returned echo_message) 1000.

(** The same request with no [internalDate] in the resource: the timestamp
    fetch reports 0. *)
Definition undated_message : message :=
  Message (msg_headers demo_message) (msg_text_parts demo_message)
          FieldMissing (msg_threadId demo_message).

Definition undated_out : outside :=
  scenario (fun _ => Returned undated_message) 1000.

(** The same request received at second 500, before the server started. *)
Definition old_message : message :=
  Message (msg_headers demo_message) (msg_text_parts demo_message)
          (FieldInt 500000) (msg_threadId demo_message).

Definition old_out : outside := scenario (fun _ => Returned old_message) 1000.

(** The mail API unreachable for listings: the history lookup and the unread
    query fail with a TLS error on every attempt. *)
Definition down_out : outside :=
  Outside (api_get_message demo_out)
          (fun _ _ _ => Raised (Exn SSLError "handshake failure"))
          (fun _ _ => Raised (Exn SSLError "handshake failure"))
          (api_send demo_out) (agent_session demo_out) (wall_clock demo_out).

Definition demo_notification : notification :=
  Notification (Some "jonathanmingli@gmail.com") (Some "h1").

(** A mailbox that answers the first seven fetches (the gates of one
    candidate) and then drops the connection on every attempt: the thread-id
    lookup runs out of retries. *)
Definition flaky_out : outside :=
  scenario (fun t => if Nat.ltb t 7 then Returned demo_message
                     else Raised (Exn ConnectionError "reset by peer")) 1000.

(** A mailbox whose connection drops at ticks 9, 10 and 11 (the thread-id
    lookup of the first candidate of a first notification), and whose clock
    reads second 1000 up to tick 12 and second 8200, two hours later, from
    tick 13 on. *)
Definition evicting_out : outside :=
  let first_day :=
    scenario (fun t => if Nat.ltb t 9 || Nat.leb 12 t
                       then Returned demo_message
                       else Raised (Exn ConnectionError "reset by peer"))
             1000 in
  Outside (api_get_message first_day) (api_list_messages first_day)
          (api_list_history first_day) (api_send first_day)
          (agent_session first_day)
          (fun t => if Nat.ltb t 13 then Qc_of_Z 1000 else Qc_of_Z 8200).

(** A ledger that already holds 100 processed ids. *)
Definition busy_world : world :=
  World 0 [] (many_ids 100) ∅ ∅ (Qc_of_Z 1000) [] [].

Definition later_notification : notification :=
  Notification (Some "jonathanmingli@gmail.com") (Some "h2").

(** ** Further code: definitions *)

(** *** [decode_notification_data], lines 56-58: the base64 padding fix

    [missing_padding = len(data) % 4; if missing_padding: data += '=' * (4 -
    missing_padding)] *)
Fixpoint replicate_char (n : nat) (c : ascii) : string :=
  match n with
  | 0 => EmptyString
  | S n' => String c (replicate_char n' c)
  end.

Definition fix_padding (data : string) : string :=
  let missing_padding := String.length data `mod` 4 in
  if Nat.eqb missing_padding 0 then data
  else data +:+ replicate_char (4 - missing_padding) "=".

(** *** [main], command [process]: the criteria check of lines 308-316

    [valid_sender and valid_recipient and valid_subject] *)
Definition cli_valid (sender recipient subject : string) : bool :=
  let valid_sender := PyStr.eqb (PyStr.lower sender) "jonathanmingli@gmail.com" in
  let valid_recipient :=
    PyStr.eqb (PyStr.lower recipient) "jonathanmingli@gmail.com" in
  let valid_subject := PyStr.eqb (PyStr.upper subject) "CLAUDE" in
  valid_sender && valid_recipient && valid_subject.

(** *** [ClaudeService.process_email_request]

    The streaming call without a callback: [if progress_callback:] is false
    for every chunk. *)
Definition process_email_request (out : outside)
    (message_content sender_email : string) : M string :=
  process_email_request_streaming out message_content sender_email
    (fun (s : unit) (_ : string) => ret s) tt.

(** *** [main], command [process] (lines 276-340)

    The result is the exit status: 1 where the code calls [sys.exit(1)], 0
    where it runs to the end.  The fetches are made directly, without the
    retry wrapper. *)
Definition process_command (out : outside) (message_id : option string)
    : M nat :=
  match message_id with
  | None => ret 1
  | Some message_id =>
      if PyStr.is_empty message_id then ret 1
      else
        try_except
          (let* sender := get_sender_email out message_id in
           let* recipient := get_recipient_email out message_id in
           let* subject := get_subject out message_id in
           let* content := get_message_content out message_id in
           if negb (cli_valid sender recipient subject) then ret 1
           else
             try_except
               (let* response := process_email_request out content sender in
                ret 0)
               (fun claude_error => ret 0))
          (fun error => ret 1)
  end.

(** *** Bookkeeping *)

(** No character of [p] is whitespace. *)
Fixpoint all_solid (p : string) : bool :=
  match p with
  | EmptyString => true
  | String c r => negb (PyStr.is_space c) && all_solid r
  end.

(** [c] does not occur in [s]. *)
Definition lacks (c : ascii) (s : string) : Prop := PyStr.has_char c s = false.

(** What [get_sender_email], [get_recipient_email] and [get_subject] make
    of a message resource. *)
Definition sender_of (m : message) : string :=
  match find_header "from" (msg_headers m) with
  | Some v => extract_address v
  | None => EmptyString
  end.

Definition recipient_of (m : message) : string :=
  match find_header "to" (msg_headers m) with
  | Some v => extract_address v
  | None => EmptyString
  end.

Definition subject_of (m : message) : string :=
  match find_header "subject" (msg_headers m) with
  | Some v => v
  | None => EmptyString
  end.

(** Every fetch of message [message_id] fails with an error of class [c]. *)
Definition fetch_fails (out : outside) (message_id : string) (c : exn_class)
    : Prop :=
  forall t, exists e,
    api_get_message out t message_id = Raised e /\ exn_cls e = c.

(** Some fetch of message [message_id] returns the resource [m]. *)
Definition fetched (out : outside) (message_id : string) (m : message) : Prop :=
  exists t, api_get_message out t message_id = Returned m.

(** [I] does not look at the tick, the sleeps, the replies sent or the
    sent-reply ids. *)
Definition reply_stable (I : world -> Prop) : Prop :=
  time_stable I
  /\ forall w, I w ->
       (forall r, I (with_outbox r w))
       /\ (forall s, I (with_sent_message_ids s w)).

(** From a world satisfying [P], [m] ends in a world satisfying [Q],
    whatever it returns or raises. *)
Definition leads {A} (P : world -> Prop) (m : M A) (Q : world -> Prop) : Prop :=
  forall w r w', m w = (r, w') -> P w -> Q w'.

(** The text [process_email_request_streaming] returns for the streamed
    chunks of a run that succeeded. *)
Definition response_of (chunks : list string) : string :=
  match chunks with
  | [] => "Claude session completed successfully."
  | responses => PyStr.join_lines responses
  end.

(** The reply that closes the exchange: the error notice when the run
    failed, the final result when the response is not empty, none
    otherwise. *)
Definition closing_reply (thread sender subject : string)
    (script : agent_script) : list reply :=
  match agent_failure script with
  | Some err =>
      [Reply thread sender (reply_subject_for subject)
         (error_message
            (Exn OtherException ("Error launching Claude session: " +:+ err)))]
  | None =>
      if PyStr.is_empty (response_of (agent_chunks script)) then []
      else [Reply thread sender (reply_subject_for subject)
              (final_email (response_of (agent_chunks script)))]
  end.

(** *** Further scenarios *)

(** An operation that fails twice with connection errors and then answers. *)
Definition succeeds_on_third : nat -> outcome string :=
  fun t =>
    if Nat.ltb t 2 then Raised (Exn ConnectionError "reset by peer")
    else Returned "thread-9".

(** A mailbox whose message fetch answers 503 every time. *)
Definition unavailable_out : outside :=
  scenario (fun _ => Raised (Exn HttpError "503 backend error")) 1000.

(** A mail API whose send endpoint fails: with HTTP 403, and with a TLS
    error, on every call. *)
Definition forbidden_send_out : outside :=
  Outside (api_get_message demo_out) (api_list_messages demo_out)
          (api_list_history demo_out)
          (fun _ _ => Raised (Exn HttpError "403 forbidden"))
          (agent_session demo_out) (wall_clock demo_out).

Definition broken_send_out : outside :=
  Outside (api_get_message demo_out) (api_list_messages demo_out)
          (api_list_history demo_out)
          (fun _ _ => Raised (Exn SSLError "bad record mac"))
          (agent_session demo_out) (wall_clock demo_out).

(** A mail API whose client library fails while building the request, with
    an exception that is none of the retried classes. *)
Definition crashing_send_out : outside :=
  Outside (api_get_message demo_out) (api_list_messages demo_out)
          (api_list_history demo_out)
          (fun _ _ => Raised (Exn OtherException "TypeError: not JSON serializable"))
          (agent_session demo_out) (wall_clock demo_out).

(** A request whose wording happens to contain the letters "ack". *)
Definition package_message : message :=
  Message (msg_headers demo_message)
          ["Please update the package list and report"]
          (FieldInt 2000000) (Some "t1").

Definition package_out : outside :=
  scenario (fun _ => Returned package_message) 1000.

(** A message whose text is three blanks. *)
Definition blank_message : message :=
  Message (msg_headers demo_message) ["   "] (FieldInt 2000000) (Some "t1").

Definition blank_out : outside := scenario (fun _ => Returned blank_message) 1000.

(** A history that records a label change only: an entry without
    [messagesAdded]. *)
Definition label_change_out : outside :=
  Outside (api_get_message demo_out) (api_list_messages demo_out)
          (fun _ _ => Returned [HistoryItem None])
          (api_send demo_out) (agent_session demo_out) (wall_clock demo_out).

(** An agent that streams one long chunk and then exits with an error. *)
Definition failing_agent_out : outside :=
  Outside (api_get_message demo_out) (api_list_messages demo_out)
          (api_list_history demo_out) (api_send demo_out)
          (fun _ _ _ => AgentScript [long_chunk] (Some "exit status 1"))
          (wall_clock demo_out).

(** A follow-up in the same thread, its subject prefixed by the mail
    client. *)
Definition follow_up_message : message :=
  Message [("From", "jonathanmingli@gmail.com");
           ("To", "jonathanmingli@gmail.com");
           ("Subject", "Re: CLAUDE")]
          ["one more thing"] (FieldInt 2000000) (Some "t1").

Definition follow_up_out : outside :=
  scenario (fun _ => Returned follow_up_message) 1000.
(** * Properties *)

(** ** Retry wrapper *)

Section RetryFacts.

Context {A : Type}.
Variable f : nat -> outcome A.
Variables max_retries delay : nat.

Lemma advance_bump_sleep d n sl w :
  advance n sl (with_slept d (bump w)) = advance (S n) (sl ++ [d]) w.
Proof.
  unfold advance; destruct w; simpl.
  f_equal; [lia | by rewrite <- app_assoc].
Qed.

Lemma advance_bump w : bump w = advance 1 [] w.
Proof. unfold advance, bump; destruct w; simpl. f_equal. lia. Qed.

Lemma backoffs_cons first n :
  backoffs delay first (S n) =
  (backoffs delay (S first) n ++ [delay * 2 ^ first])%list.
Proof. reflexivity. Qed.

Lemma retry_loop_exhausted remaining : forall attempt w,
  (forall t, transient_at f t) ->
  attempt + remaining = max_retries ->
  retry_loop (external f) max_retries delay remaining attempt w =
    (Returned None,
     advance remaining (backoffs delay attempt (remaining - 1)) w).
Proof.
  induction remaining as [|r IH]; intros attempt w Hall Hsum.
  - simpl. unfold ret, advance. destruct w; simpl.
    do 2 f_equal. lia.
  - destruct (Hall (tick w)) as (e & Hf & He).
    cbn [retry_loop]. unfold try_except at 1, bind at 1, external at 1.
    rewrite Hf, He.
    destruct (Nat.eqb_spec attempt (max_retries - 1)) as [Hlast|Hmore].
    + assert (r = 0) by lia. subst r. unfold ret. by rewrite advance_bump.
    + destruct r as [|r']; [lia|].
      unfold bind at 1, sleep, modify.
      rewrite IH by (auto; lia).
      rewrite advance_bump_sleep.
      replace (S (S r') - 1) with (S (S r' - 1)) by lia.
      by rewrite backoffs_cons.
Qed.

Lemma retry_loop_fatal k : forall remaining attempt w e,
  k < remaining ->
  attempt + remaining = max_retries ->
  (forall j, j < k -> transient_at f (tick w + j)) ->
  f (tick w + k) = Raised e ->
  is_transient e = false ->
  retry_loop (external f) max_retries delay remaining attempt w =
    (Raised e, advance (S k) (backoffs delay attempt k) w).
Proof.
  induction k as [|k IH]; intros remaining attempt w e Hk Hsum Hbefore Hf He.
  - destruct remaining as [|r]; [lia|].
    cbn [retry_loop]. unfold try_except, bind, external.
    rewrite Nat.add_0_r in Hf. rewrite Hf, He.
    unfold raise. by rewrite advance_bump.
  - destruct remaining as [|r]; [lia|].
    destruct (Hbefore 0) as (e0 & Hf0 & He0); [lia|].
    rewrite Nat.add_0_r in Hf0.
    cbn [retry_loop]. unfold try_except at 1, bind at 1, external at 1.
    rewrite Hf0, He0.
    destruct (Nat.eqb_spec attempt (max_retries - 1)) as [Hlast|Hmore]; [lia|].
    unfold bind at 1, sleep, modify.
    rewrite (IH r (S attempt) _ e); simpl tick; try lia.
    + rewrite advance_bump_sleep. by rewrite backoffs_cons.
    + intros j Hj. replace (S (tick w) + j) with (tick w + S j) by lia.
      apply Hbefore. lia.
    + by replace (S (tick w) + k) with (tick w + S k) by lia.
    + done.
Qed.

End RetryFacts.

(** C6. [retry_gmail_operation] around an operation that raises a transient
    error (SSL, HTTP, connection, OS) on every call invokes it exactly
    [max_retries] times, sleeps [delay * 2 ** attempt] after each attempt but
    the last, and returns [None] without raising; with the defaults that is
    three calls and sleeps of 2 and 4.  An exception outside those classes,
    raised at attempt [k] after [k] transient failures, propagates at once:
    [k + 1] calls in all, no sleep after it, no further call. *)
Theorem retry_exhaustion_returns_unavailable :
  forall (A : Type) (f : nat -> outcome A) (max_retries delay : nat) (w : world),
    ((forall t, transient_at f t) ->
       retry_gmail_operation (external f) max_retries delay w =
         (Returned None,
          advance max_retries (backoffs delay 0 (max_retries - 1)) w)
       /\ retry (external f) w = (Returned None, advance 3 [4; 2] w))
    /\
    (forall k e,
       k < max_retries ->
       (forall j, j < k -> transient_at f (tick w + j)) ->
       f (tick w + k) = Raised e ->
       is_transient e = false ->
       retry_gmail_operation (external f) max_retries delay w =
         (Raised e, advance (S k) (backoffs delay 0 k) w)).
Proof.
  intros A f max_retries delay w. split.
  - intros Hall. split.
    + unfold retry_gmail_operation. by apply retry_loop_exhausted.
    + unfold retry, retry_gmail_operation.
      by rewrite retry_loop_exhausted.
  - intros k e Hk Hbefore Hf He.
    unfold retry_gmail_operation. by apply retry_loop_fatal.
Qed.

Lemma retry_exhaustion_returns_unavailable_witness :
  retry_gmail_operation (external always_ssl_error) 3 2 idle_world =
    (Returned None, advance 3 [4; 2] idle_world)
  /\ retry_gmail_operation (external fatal_on_second) 3 2 idle_world =
      (Raised (Exn OtherException "KeyError: 'payload'"),
       advance 2 [2] idle_world).
Proof.
  split.
  - apply (proj1 (retry_exhaustion_returns_unavailable
                    string always_ssl_error 3 2 idle_world)).
    intros t. eexists. split; reflexivity.
  - apply (proj2 (retry_exhaustion_returns_unavailable
                    string fatal_on_second 3 2 idle_world) 1).
    + lia.
    + intros j Hj. assert (j = 0) as -> by lia.
      eexists. split; reflexivity.
    + reflexivity.
    + reflexivity.
Defined.

(** ** Eligibility filter *)

Lemma eqb_true_iff (a b : string) : PyStr.eqb a b = true <-> a = b.
Proof. unfold PyStr.eqb. apply String.eqb_eq. Qed.

Lemma negb_eqb_false_iff (a b : string) :
  negb (PyStr.eqb a b) = false <-> a = b.
Proof. rewrite negb_false_iff. apply eqb_true_iff. Qed.

Lemma check_criteria_true (sender recipient subject : string) :
  fst (check_criteria sender recipient subject) = true <->
  PyStr.lower sender = target_email /\
  PyStr.lower recipient = target_email /\
  PyStr.upper subject = required_subject.
Proof.
  unfold check_criteria, target_email, required_subject.
  destruct (negb (PyStr.eqb (PyStr.lower sender) _)) eqn:Hs.
  { simpl. split; [done|]. intros (H & _ & _).
    apply negb_eqb_false_iff in H. congruence. }
  destruct (negb (PyStr.eqb (PyStr.lower recipient) _)) eqn:Hr.
  { simpl. split; [done|]. intros (_ & H & _).
    apply negb_eqb_false_iff in H. congruence. }
  destruct (negb (PyStr.eqb (PyStr.upper subject) _)) eqn:Hj.
  { simpl. split; [done|]. intros (_ & _ & H).
    apply negb_eqb_false_iff in H. congruence. }
  simpl. split; [|done]. intros _.
  by rewrite negb_eqb_false_iff in Hs, Hr, Hj.
Qed.

Lemma is_valid_claude_email_fetched out message_id w sender recipient subject
    w1 w2 w3 :
  retry (get_sender_email out message_id) w = (Returned (Some sender), w1) ->
  retry (get_recipient_email out message_id) w1 = (Returned (Some recipient), w2) ->
  retry (get_subject out message_id) w2 = (Returned (Some subject), w3) ->
  is_valid_claude_email out message_id w =
    (Returned (check_criteria sender recipient subject), w3).
Proof.
  intros Hs Hr Hj. unfold is_valid_claude_email, try_except, bind.
  by rewrite Hs, Hr, Hj.
Qed.

(** C5, as the code has it.  With sender, recipient and subject fetched,
    [is_valid_claude_email] answers by [check_criteria], which is true exactly
    when the lower-cased sender and the lower-cased recipient equal the target
    address and the upper-cased subject equals the required subject: a
    case-insensitive exact match of the subject as fetched, with no trimming.
    The subject ["claude"] is eligible. *)
Theorem eligibility_is_untrimmed_exact_match :
  forall out message_id w sender recipient subject w1 w2 w3,
    retry (get_sender_email out message_id) w = (Returned (Some sender), w1) ->
    retry (get_recipient_email out message_id) w1 = (Returned (Some recipient), w2) ->
    retry (get_subject out message_id) w2 = (Returned (Some subject), w3) ->
    is_valid_claude_email out message_id w =
      (Returned (check_criteria sender recipient subject), w3)
    /\ (fst (check_criteria sender recipient subject) = true <->
          PyStr.lower sender = target_email /\
          PyStr.lower recipient = target_email /\
          PyStr.upper subject = required_subject)
    /\ fst (check_criteria target_email target_email "claude") = true.
Proof.
  intros. split; [by eapply is_valid_claude_email_fetched|].
  split; [apply check_criteria_true | reflexivity].
Qed.

Lemma eligibility_is_untrimmed_exact_match_witness :
  is_valid_claude_email demo_out "m1" idle_world =
    (Returned (check_criteria "jonathanmingli@gmail.com"
                 "jonathanmingli@gmail.com" "claude"),
     advance 3 [] idle_world)
  /\ fst (check_criteria "jonathanmingli@gmail.com"
            "jonathanmingli@gmail.com" "claude") = true.
Proof.
  pose proof (eligibility_is_untrimmed_exact_match demo_out "m1" idle_world
                "jonathanmingli@gmail.com" "jonathanmingli@gmail.com" "claude"
                (advance 1 [] idle_world) (advance 2 [] idle_world)
                (advance 3 [] idle_world)
                eq_refl eq_refl eq_refl) as (Hrun & Hiff & _).
  split; [exact Hrun|].
  apply Hiff. repeat split; reflexivity.
Defined.

(** C5, as stated, fails: a subject with a leading blank, [" CLAUDE"], from
    the target address to the target address is eligible by the
    specification's trimmed comparison and rejected by the code. *)
Lemma eligibility_trimming_counterexample :
  spec_isEligible target_email target_email " CLAUDE" = true
  /\ check_criteria target_email target_email " CLAUDE" =
      (false, "Subject ' CLAUDE' is not 'CLAUDE'").
Proof. split; reflexivity. Qed.

(** ** Ledger compaction *)

Section Compaction.

Context `{Countable K}.
Implicit Types s : gset K.

Lemma size_keep_last n s : size (keep_last n s) = n `min` size s.
Proof.
  unfold keep_last. rewrite size_list_to_set.
  - rewrite length_drop. unfold size, set_size. simpl. lia.
  - eapply sublist_NoDup; [apply (NoDup_elements s) | apply sublist_drop].
Qed.

Lemma keep_last_subseteq n s : keep_last n s ⊆ s.
Proof.
  intros x. unfold keep_last. rewrite elem_of_list_to_set.
  intros Hx. apply elem_of_elements. eapply subseteq_drop, Hx.
Qed.

Lemma size_trim cap retained s :
  retained <= cap ->
  size (trim cap retained s) =
    if decide (cap < size s) then retained else size s.
Proof.
  intros Hle. unfold trim.
  destruct (Nat.ltb_spec cap (size s)); case_decide; try lia.
  rewrite size_keep_last. lia.
Qed.

Lemma trim_subseteq cap retained s : trim cap retained s ⊆ s.
Proof.
  unfold trim. destruct (Nat.ltb cap (size s)); [|done].
  apply keep_last_subseteq.
Qed.

Lemma size_trim_le cap retained s :
  retained <= cap -> size (trim cap retained s) <= cap.
Proof. intros Hle. rewrite size_trim by done. case_decide; lia. Qed.

End Compaction.

Lemma cleanup_open out w :
  (Qc_of_Z 3600 < wall_clock out (tick w) - last_cleanup_time w)%Qc ->
  cleanup_processed_messages out w =
    (Returned tt,
     World (S (tick w)) (slept w)
       (trim 100 50 (processed_messages w))
       (trim 100 50 (processed_history_ids w))
       (trim 50 25 (sent_message_ids w))
       (wall_clock out (tick w)) (outbox w) (agent_calls w)).
Proof.
  intros Hgate. unfold cleanup_processed_messages, now, bind, external, get_world.
  simpl. rewrite bool_decide_eq_true_2 by done. reflexivity.
Qed.

Lemma cleanup_closed out w :
  ~ (Qc_of_Z 3600 < wall_clock out (tick w) - last_cleanup_time w)%Qc ->
  cleanup_processed_messages out w = (Returned tt, bump w).
Proof.
  intros Hgate. unfold cleanup_processed_messages, now, bind, external, get_world.
  simpl. rewrite bool_decide_eq_false_2 by done. reflexivity.
Qed.

(** C4, as the code has it.  When more than 3600 seconds have passed since
    the last compaction, [cleanup_processed_messages] leaves each set with
    exactly its retained size if it exceeded its cap and untouched otherwise,
    the caps being 100, 100 and 50 and the retained sizes 50, 50 and 25 for
    processed messages, processed history ids and sent replies; what survives
    was in the set before; so no set exceeds its cap afterwards, and the
    compaction time is reset.  Within the hour nothing is trimmed. *)
Theorem compaction_bounds_each_set :
  forall out w,
    let elapsed := (wall_clock out (tick w) - last_cleanup_time w)%Qc in
    let w' := snd (cleanup_processed_messages out w) in
    ((Qc_of_Z 3600 < elapsed)%Qc ->
       size (processed_messages w') =
         (if decide (100 < size (processed_messages w)) then 50
          else size (processed_messages w))
       /\ size (processed_history_ids w') =
         (if decide (100 < size (processed_history_ids w)) then 50
          else size (processed_history_ids w))
       /\ size (sent_message_ids w') =
         (if decide (50 < size (sent_message_ids w)) then 25
          else size (sent_message_ids w))
       /\ size (processed_messages w') <= 100
       /\ size (processed_history_ids w') <= 100
       /\ size (sent_message_ids w') <= 50
       /\ processed_messages w' ⊆ processed_messages w
       /\ processed_history_ids w' ⊆ processed_history_ids w
       /\ sent_message_ids w' ⊆ sent_message_ids w
       /\ last_cleanup_time w' = wall_clock out (tick w))
    /\
    (~ (Qc_of_Z 3600 < elapsed)%Qc -> w' = bump w).
Proof.
  intros out w elapsed w'. subst elapsed w'. split; intros Hgate.
  - rewrite cleanup_open by done. simpl.
    rewrite !size_trim by lia.
    repeat split; try (case_decide; lia); try apply trim_subseteq.
  - by rewrite cleanup_closed.
Qed.

Lemma compaction_bounds_each_set_witness :
  size (sent_message_ids (snd (cleanup_processed_messages late_out crowded_world)))
    = 25
  /\ snd (cleanup_processed_messages demo_out crowded_world) = bump crowded_world.
Proof.
  pose proof (compaction_bounds_each_set late_out crowded_world) as [Hopen _].
  pose proof (compaction_bounds_each_set demo_out crowded_world) as [_ Hshut].
  split.
  - destruct Hopen as (_ & _ & Hsent & _); [by vm_compute|].
    rewrite Hsent. by vm_compute.
  - apply Hshut. by vm_compute.
Defined.

(** C4, as stated, fails for the sent-reply set: its cap is 50, not 100.  A
    ledger holding 51 sent-reply ids (under the stated limit of 100) is cut
    to 25 by the code, where a limit of 100 would leave all 51. *)
Lemma sent_replies_cap_counterexample :
  size (sent_message_ids crowded_world) = 51
  /\ size (spec_compact_sent (sent_message_ids crowded_world)) = 51
  /\ size (sent_message_ids
             (snd (cleanup_processed_messages late_out crowded_world))) = 25.
Proof. by vm_compute. Qed.

(** ** Invariants of monadic code *)

Section Preservation.

Variable I : world -> Prop.

Lemma preserves_ret {A} (a : A) : preserves I (ret a).
Proof. intros w r w' [= <- <-]. done. Qed.

Lemma preserves_raise {A} e : preserves I (raise (A:=A) e).
Proof. intros w r w' [= <- <-]. done. Qed.

Lemma preserves_get_world : preserves I get_world.
Proof. intros w r w' [= <- <-]. done. Qed.

Lemma preserves_bind {A B} (m : M A) (k : A -> M B) :
  preserves I m -> (forall a, preserves I (k a)) -> preserves I (bind m k).
Proof.
  intros Hm Hk w r w' Hrun Hw. unfold bind in Hrun.
  destruct (m w) as [[a|e] w1] eqn:Em.
  - eapply Hk; [exact Hrun|]. eapply Hm; eauto.
  - injection Hrun as <- <-. eapply Hm; eauto.
Qed.

Lemma preserves_try_except {A} (m : M A) (h : exn -> M A) :
  preserves I m -> (forall e, preserves I (h e)) -> preserves I (try_except m h).
Proof.
  intros Hm Hh w r w' Hrun Hw. unfold try_except in Hrun.
  destruct (m w) as [[a|e] w1] eqn:Em.
  - injection Hrun as <- <-. eapply Hm; eauto.
  - eapply Hh; [exact Hrun|]. eapply Hm; eauto.
Qed.

Lemma preserves_modify (g : world -> world) :
  (forall w, I w -> I (g w)) -> preserves I (modify g).
Proof. intros Hg w r w' [= <- <-]. apply Hg. Qed.

Lemma preserves_for_each {A} (l : list A) (body : A -> M unit) :
  (forall a, preserves I (body a)) -> preserves I (for_each l body).
Proof.
  intros Hbody. induction l as [|a l IH]; simpl.
  - apply preserves_ret.
  - apply preserves_bind; auto.
Qed.

Lemma preserves_stream {S} (cb : S -> string -> M S) (chunks : list string) :
  (forall s text, preserves I (cb s text)) ->
  forall s, preserves I (stream cb s chunks).
Proof.
  intros Hcb. induction chunks as [|c chunks IH]; intros s; simpl.
  - apply preserves_ret.
  - apply preserves_bind; auto.
Qed.

Hypothesis Istable : time_stable I.

Lemma preserves_external {A} (f : nat -> outcome A) : preserves I (external f).
Proof. intros w r w' [= <- <-] Hw. by apply Istable. Qed.

Lemma preserves_sleep d : preserves I (sleep d).
Proof. apply preserves_modify. intros w Hw. by apply Istable. Qed.

Lemma preserves_retry_loop {A} (operation : M A) max_retries delay remaining :
  preserves I operation ->
  forall attempt,
    preserves I (retry_loop operation max_retries delay remaining attempt).
Proof.
  intros Hop. induction remaining as [|r IH]; intros attempt; simpl.
  - apply preserves_ret.
  - apply preserves_try_except.
    + apply preserves_bind; [done|]. intros v. apply preserves_ret.
    + intros e. destruct (is_transient e); [|apply preserves_raise].
      destruct (Nat.eqb attempt (max_retries - 1)); [apply preserves_ret|].
      apply preserves_bind; [apply preserves_sleep | auto].
Qed.

Lemma preserves_retry {A} (operation : M A) :
  preserves I operation -> preserves I (retry operation).
Proof. intros Hop. by apply preserves_retry_loop. Qed.

End Preservation.

(** Steps through a goal [preserves I m] along the structure of [m]. *)
Ltac preserve_step :=
  first
    [ assumption
    | match goal with
      | H : forall _, preserves _ _ |- _ => apply H
      | H : forall _ _, preserves _ _ |- _ => apply H
      end
    | match goal with
      | |- preserves _ (ret _) => apply preserves_ret
      | |- preserves _ (raise _) => apply preserves_raise
      | |- preserves _ get_world => apply preserves_get_world
      | |- preserves _ (external _) => apply preserves_external; assumption
      | |- preserves _ (sleep _) => apply preserves_sleep; assumption
      | |- preserves _ (retry _) => apply preserves_retry; [assumption|]
      | |- preserves _ (bind _ _) => apply preserves_bind; [|intros ?]
      | |- preserves _ (try_except _ _) =>
          apply preserves_try_except; [|intros ?]
      | |- preserves _ (match ?x with _ => _ end) => destruct x
      end ].

Ltac preserve := repeat preserve_step.

Section Quiet.

Variable out : outside.
Variable I : world -> Prop.
Hypothesis Istable : time_stable I.

Lemma preserves_get_message id : preserves I (get_message out id).
Proof. unfold get_message. preserve. Qed.

Lemma preserves_get_sender_email id : preserves I (get_sender_email out id).
Proof. unfold get_sender_email. pose proof preserves_get_message. preserve; auto. Qed.

Lemma preserves_get_recipient_email id :
  preserves I (get_recipient_email out id).
Proof. unfold get_recipient_email. pose proof preserves_get_message. preserve; auto. Qed.

Lemma preserves_get_subject id : preserves I (get_subject out id).
Proof. unfold get_subject. pose proof preserves_get_message. preserve; auto. Qed.

Lemma preserves_get_message_content id :
  preserves I (get_message_content out id).
Proof. unfold get_message_content. pose proof preserves_get_message. preserve; auto. Qed.

Lemma preserves_get_message_timestamp id :
  preserves I (get_message_timestamp out id).
Proof. unfold get_message_timestamp. pose proof preserves_get_message. preserve; auto. Qed.

Lemma preserves_get_thread_id id : preserves I (get_thread_id out id).
Proof. unfold get_thread_id. pose proof preserves_get_message. preserve; auto. Qed.

Lemma preserves_is_valid_claude_email id :
  preserves I (is_valid_claude_email out id).
Proof.
  unfold is_valid_claude_email.
  pose proof preserves_get_sender_email.
  pose proof preserves_get_recipient_email.
  pose proof preserves_get_subject.
  preserve; auto.
Qed.

Lemma preserves_gates sst id : preserves I (gates out sst id).
Proof.
  unfold gates, is_system_generated_email.
  pose proof preserves_get_message_timestamp.
  pose proof preserves_is_valid_claude_email.
  pose proof preserves_get_message_content.
  pose proof preserves_get_sender_email.
  pose proof preserves_get_subject.
  preserve; auto.
Qed.

Lemma preserves_resolve history_id : preserves I (resolve out history_id).
Proof.
  unfold resolve, unread_fallback, get_history, get_recent_messages.
  preserve.
Qed.

End Quiet.

Lemma same_ledger_stable w0 : time_stable (same_ledger w0).
Proof. intros w Hw. split; [|intros d]; exact Hw. Qed.

Lemma same_ledger_refl w : same_ledger w w.
Proof. repeat split. Qed.

Lemma gates_quiet out sst id w r w' :
  gates out sst id w = (r, w') -> same_ledger w w'.
Proof.
  intros Hrun.
  eapply (preserves_gates out _ (same_ledger_stable w)); eauto using same_ledger_refl.
Qed.

(** ** What the retry wrapper and the gates can return *)

Lemma returns_retry_loop {A} (operation : M A) (Q : A -> Prop)
    max_retries delay remaining :
  returns operation Q ->
  forall attempt,
    returns (retry_loop operation max_retries delay remaining attempt)
            (fun o => forall v, o = Some v -> Q v).
Proof.
  intros Hop. induction remaining as [|r IH]; intros attempt w o w' Hrun v ->.
  - discriminate.
  - simpl in Hrun. unfold try_except, bind in Hrun.
    destruct (operation w) as [[a|e] w1] eqn:Eop.
    + injection Hrun as <- <-. eapply Hop, Eop.
    + destruct (is_transient e); [|discriminate].
      destruct (Nat.eqb attempt (max_retries - 1)); [discriminate|].
      simpl in Hrun. eapply IH; [exact Hrun | done].
Qed.

Lemma returns_retry {A} (operation : M A) (Q : A -> Prop) :
  returns operation Q ->
  returns (retry operation) (fun o => forall v, o = Some v -> Q v).
Proof. intros Hop. by apply returns_retry_loop. Qed.

Lemma returns_get_message_content out id :
  returns (get_message_content out id)
          (fun c => exists t m,
             api_get_message out t id = Returned m /\ c = body_of m).
Proof.
  intros w c w' Hrun.
  unfold get_message_content, bind, get_message, external, ret in Hrun.
  destruct (api_get_message out (tick w) id) as [m|e] eqn:Em; [|discriminate].
  injection Hrun as <- <-. eauto.
Qed.

(** Closes a branch of [gates] that ends in a skip other than [Stale]. *)
Ltac skipped :=
  match goal with
  | H : _ = (Returned _, _) |- _ =>
      injection H as <- <-; repeat split; try done; intros [=]
  end.

Lemma gates_returns out sst id w g w' :
  gates out sst id w = (Returned g, w') ->
  match g with
  | inl v =>
      v <> Handled /\ v <> AlreadyProcessed
      /\ (v = Stale ->
            exists ts w1,
              retry (get_message_timestamp out id) w = (Returned ts, w1)
              /\ is_stale sst ts = true)
  | inr (content, sender, subject) =>
      (exists t m, api_get_message out t id = Returned m /\ content = body_of m)
      /\ fst (system_generated (sent_message_ids w) content sender id) = false
      /\ PyStr.is_empty (PyStr.strip content) = false
  end.
Proof.
  intros Hrun. unfold gates in Hrun.
  unfold bind at 1 in Hrun.
  destruct (retry (get_message_timestamp out id) w) as [[ts|e] w1] eqn:E1;
    [|discriminate].
  destruct (is_stale sst ts) eqn:Ests.
  { injection Hrun as <- <-. repeat split; try done. eauto. }
  unfold bind at 1 in Hrun.
  destruct (is_valid_claude_email out id w1) as [[valid|e] w2] eqn:E2;
    [|discriminate].
  destruct (negb (fst valid)); [skipped|].
  unfold bind at 1 in Hrun.
  destruct (retry (get_message_content out id) w2) as [[mc|e] w3] eqn:E3;
    [|discriminate].
  unfold bind at 1 in Hrun.
  destruct (retry (get_sender_email out id) w3) as [[se|e] w4] eqn:E4;
    [|discriminate].
  destruct mc as [content|]; [|destruct se; skipped].
  destruct se as [sender|]; [|skipped].
  unfold bind at 1, is_system_generated_email, bind at 1, get_world, ret at 1 in Hrun.
  simpl in Hrun.
  assert (sent_message_ids w4 = sent_message_ids w) as Hsent.
  { pose proof (same_ledger_stable w) as Hst.
    assert (same_ledger w w1) as H1
      by (eapply (preserves_retry _ Hst), same_ledger_refl; [|exact E1];
          by apply preserves_get_message_timestamp).
    assert (same_ledger w w2) as H2
      by (eapply (preserves_is_valid_claude_email out _ Hst); eauto).
    assert (same_ledger w w3) as H3
      by (eapply (preserves_retry _ Hst); [|exact E3|exact H2];
          by apply preserves_get_message_content).
    assert (same_ledger w w4) as H4
      by (eapply (preserves_retry _ Hst); [|exact E4|exact H3];
          by apply preserves_get_sender_email).
    apply H4. }
  rewrite Hsent in Hrun.
  destruct (fst (system_generated (sent_message_ids w) content sender id))
    eqn:Esys; [skipped|].
  unfold bind in Hrun.
  destruct (retry (get_subject out id) w4) as [[[subject|]|e] w5] eqn:E5;
    try discriminate; [|skipped].
  destruct (PyStr.is_empty (PyStr.strip content)) eqn:Eempty;
    [skipped|].
  injection Hrun as <- <-. split; [|done].
  eapply (returns_retry _ _ (returns_get_message_content out id)); eauto.
Qed.

Lemma process_message_seen out sst id w :
  id ∈ processed_messages w ->
  process_message out sst id w = (Returned AlreadyProcessed, w).
Proof.
  intros Hin. unfold process_message, bind, is_processed, get_world, ret.
  simpl. by rewrite bool_decide_eq_true_2.
Qed.

(** A candidate that the system-generated test rejects for every body the
    mailbox can deliver is never handled, and looking at it changes nothing
    but the clock. *)
Lemma rejected_not_handled out sst id w r w' :
  (forall t m sender, api_get_message out t id = Returned m ->
     fst (system_generated (sent_message_ids w) (body_of m) sender id) = true) ->
  process_message out sst id w = (r, w') ->
  r <> Returned Handled /\ same_ledger w w'.
Proof.
  intros Hmarked Hrun.
  unfold process_message, bind at 1, is_processed, bind at 1, get_world, ret at 1
    in Hrun.
  simpl in Hrun.
  destruct (bool_decide (id ∈ processed_messages w)).
  { injection Hrun as <- <-. split; [done | apply same_ledger_refl]. }
  unfold bind at 1 in Hrun.
  destruct (gates out sst id w) as [[g|e] w1] eqn:Eg.
  - pose proof (gates_returns _ _ _ _ _ _ Eg) as Hg.
    pose proof (gates_quiet _ _ _ _ _ _ Eg) as Hq.
    destruct g as [v|[[content sender] subject]].
    + injection Hrun as <- <-. split; [|done]. intros [= ->]. by destruct Hg.
    + destruct Hg as ((t & m & Hm & ->) & Hsys & _).
      rewrite (Hmarked t m sender Hm) in Hsys. discriminate.
  - injection Hrun as <- <-. split; [done|].
    by eapply gates_quiet.
Qed.

(** ** The system markers in the reply bodies *)

Lemma lower_app a b : PyStr.lower (a +:+ b) = PyStr.lower a +:+ PyStr.lower b.
Proof.
  unfold PyStr.lower. induction a as [|c a IH]; simpl; [done|].
  rewrite IH. reflexivity.
Qed.

Lemma app_is_empty a b : PyStr.is_empty a = false -> PyStr.is_empty (a +:+ b) = false.
Proof. by destruct a. Qed.

Lemma rstrip_app_solid a b :
  solid_end a = true -> PyStr.rstrip (a +:+ b) = a +:+ PyStr.rstrip b.
Proof.
  induction a as [|c a IH]; [done|]. intros Hsolid.
  destruct a as [|c' a'].
  - simpl in *. apply negb_true_iff in Hsolid. by rewrite Hsolid.
  - change (PyStr.rstrip (String c (String c' a' +:+ b)) =
            String c (String c' a' +:+ PyStr.rstrip b)).
    cbn [PyStr.rstrip]. rewrite IH by done.
    simpl. by rewrite andb_false_r.
Qed.

Lemma strip_app_solid a b :
  solid_start a = true -> solid_end a = true ->
  PyStr.strip (a +:+ b) = a +:+ PyStr.rstrip b.
Proof.
  intros Hstart Hend. unfold PyStr.strip. rewrite rstrip_app_solid by done.
  destruct a as [|c a]; [done|]. simpl in *.
  apply negb_true_iff in Hstart. by rewrite Hstart.
Qed.

Lemma startswith_app p r : PyStr.startswith p (p +:+ r) = true.
Proof.
  induction p as [|c p IH]; simpl; [by destruct r|].
  by rewrite Ascii.eqb_refl.
Qed.

Lemma contains_app p r : PyStr.contains p (p +:+ r) = true.
Proof.
  destruct (p +:+ r) eqn:E; simpl; rewrite <- E, startswith_app; done.
Qed.

Lemma first_pattern_found content_lower patterns pattern :
  pattern ∈ patterns ->
  PyStr.contains (PyStr.lower pattern) content_lower = true ->
  exists p, first_pattern content_lower patterns = Some p.
Proof.
  induction patterns as [|q patterns IH]; intros Hin Hocc.
  - by apply elem_of_nil in Hin.
  - simpl. destruct (PyStr.contains (PyStr.lower q) content_lower) eqn:Eq; [eauto|].
    apply elem_of_cons in Hin as [->|Hin]; [congruence | auto].
Qed.

Lemma first_pattern_some content_lower patterns p :
  first_pattern content_lower patterns = Some p ->
  p ∈ patterns /\ PyStr.contains (PyStr.lower p) content_lower = true.
Proof.
  induction patterns as [|q patterns IH]; [done|]. simpl.
  destruct (PyStr.contains (PyStr.lower q) content_lower) eqn:Eq.
  - intros [= <-]. split; [apply list_elem_of_here | done].
  - intros Hrest. destruct (IH Hrest). split; [by apply list_elem_of_further | done].
Qed.

Lemma first_pattern_none content_lower patterns :
  first_pattern content_lower patterns = None ->
  forall p, p ∈ patterns -> PyStr.contains (PyStr.lower p) content_lower = false.
Proof.
  induction patterns as [|q patterns IH]; intros Hnone p Hin.
  - by apply elem_of_nil in Hin.
  - simpl in Hnone.
    destruct (PyStr.contains (PyStr.lower q) content_lower) eqn:Eq; [done|].
    apply elem_of_cons in Hin as [->|Hin]; auto.
Qed.

Lemma system_generated_true_iff sent content sender id :
  fst (system_generated sent content sender id) = true <->
  id ∈ sent
  \/ (exists pattern, pattern ∈ system_patterns /\
        PyStr.contains (PyStr.lower pattern)
          (PyStr.strip (PyStr.lower content)) = true)
  \/ String.length (PyStr.strip (PyStr.lower content)) < 10.
Proof.
  unfold system_generated. case_bool_decide as Hin.
  { simpl. split; auto. }
  destruct (first_pattern _ system_patterns) as [p|] eqn:Ep.
  { simpl. apply first_pattern_some in Ep. split; [|done]. eauto. }
  pose proof (first_pattern_none _ _ Ep) as Hnone.
  destruct (Nat.ltb_spec (String.length (PyStr.strip (PyStr.lower content))) 10);
    simpl.
  - split; auto.
  - split; [done|]. intros [?|[(p & Hp & Hocc)|?]]; [done| |lia].
    rewrite (Hnone p Hp) in Hocc. done.
Qed.

Lemma marker_prefix_marked pattern tail sent sender id :
  pattern ∈ system_patterns ->
  solid_start (PyStr.lower pattern) = true ->
  solid_end (PyStr.lower pattern) = true ->
  fst (system_generated sent (pattern +:+ tail) sender id) = true.
Proof.
  intros Hin Hstart Hend. apply system_generated_true_iff. right. left.
  exists pattern. split; [done|].
  rewrite lower_app, strip_app_solid by done. apply contains_app.
Qed.

Lemma reply_body_marked b :
  is_reply_body b ->
  forall sent sender id, fst (system_generated sent b sender id) = true.
Proof.
  intros Hb sent sender id.
  destruct Hb as [->|[[u ->]|[[resp ->]|[e ->]]]].
  - apply (marker_prefix_marked "ack" EmptyString); [set_solver|done|done].
  - apply (marker_prefix_marked "Progress update:"
             (String "010" (String "010" u))); [set_solver|done|done].
  - apply (marker_prefix_marked "Task completed!"
             (String "010" (String "010" resp))); [set_solver|done|done].
  - apply (marker_prefix_marked "Claude processing failed with error:"
             (" " +:+ exn_msg e)); [set_solver|done|done].
Qed.

(** ** Every reply the handler posts carries a system marker *)

Section RepliesMarked.

Variable out : outside.
Variable server_start_time : Qc.

Lemma replies_marked_stable : time_stable replies_marked.
Proof. intros w Hw. split; [|intros d]; exact Hw. Qed.

Lemma preserves_send_reply_email thread to subject body :
  is_reply_body body ->
  preserves replies_marked (send_reply_email out thread to subject body).
Proof.
  intros Hbody. unfold send_reply_email.
  apply preserves_try_except.
  - intros w r w' [= <- <-] Hw. by apply Forall_cons.
  - intros e. destruct (exn_cls e); preserve.
Qed.

Lemma preserves_send_and_track thread sender subject body :
  is_reply_body body ->
  preserves replies_marked (send_and_track out thread sender subject body).
Proof.
  intros Hbody. unfold send_and_track.
  pose proof replies_marked_stable.
  pose proof (preserves_send_reply_email thread sender subject body Hbody).
  preserve; auto.
  by apply preserves_modify.
Qed.

Lemma preserves_progress_callback thread_id sender subject updates text :
  preserves replies_marked
    (progress_callback out thread_id sender subject updates text).
Proof.
  unfold progress_callback.
  preserve.
  apply preserves_send_and_track. right; left. eauto.
Qed.

Lemma preserves_respond id content sender subject :
  preserves replies_marked (respond out id content sender subject).
Proof.
  unfold respond, process_email_request_streaming, start_session.
  pose proof replies_marked_stable.
  pose proof (preserves_get_thread_id out _ replies_marked_stable).
  preserve; auto.
  all: try (apply preserves_send_and_track; unfold is_reply_body; eauto).
  all: try (apply preserves_stream; intros;
            apply preserves_progress_callback).
  all: try (intros w r w' [= <- <-] Hw; exact Hw).
Qed.

Lemma preserves_process_message id :
  preserves replies_marked (process_message out server_start_time id).
Proof.
  unfold process_message, is_processed, mark_processed.
  pose proof (preserves_gates out _ replies_marked_stable server_start_time).
  pose proof preserves_respond.
  preserve; auto.
  by apply preserves_modify.
Qed.

Lemma preserves_process_notification n :
  preserves replies_marked (process_notification out server_start_time n).
Proof.
  unfold process_notification, cleanup_processed_messages, now, claim_history.
  pose proof replies_marked_stable.
  pose proof (preserves_resolve out _ replies_marked_stable).
  pose proof preserves_process_message.
  preserve; auto.
  all: try (by apply preserves_modify).
  apply preserves_for_each. intros id. preserve; auto.
Qed.

End RepliesMarked.

(** C7, as the code has it.  [is_system_generated_email] always returns and
    leaves the state alone; it answers true exactly when the message id is
    among [sent_message_ids], or the lower-cased, trimmed body contains,
    lower-cased, one of the six patterns of lines 93-100 (the five kinds of
    marker and ['Claude response generated']), or that text has fewer than 10
    characters.  For the body ["ack"] the answer is true in every state: with
    the reason naming the pattern ['ack'] when the message id is not among
    the sent ids, with the reason ["Email was sent by this system"] when it
    is.  Either way a candidate whose body is ["ack"] is skipped:
    [process_message] never handles it and makes no agent call. *)
Theorem is_system_generated_email_classification :
  forall out server_start_time content sender message_id w,
    let content_lower := PyStr.strip (PyStr.lower content) in
    (exists verdict reason,
       is_system_generated_email content sender message_id w
         = (Returned (verdict, reason), w)
       /\ (verdict = true <->
             message_id ∈ sent_message_ids w
             \/ (exists pattern,
                   pattern ∈ [ "ack";
                               "Progress update:";
                               "Task completed!";
                               "Claude processing failed with error:";
                               "Processing with Claude Code";
                               "Claude response generated" ]
                   /\ PyStr.contains (PyStr.lower pattern) content_lower = true)
             \/ String.length content_lower < 10))
    /\ (message_id ∉ sent_message_ids w ->
          is_system_generated_email "ack" sender message_id w
            = (Returned (true, "Email contains system pattern: 'ack'"), w)
          /\ PyStr.contains "ack" "Email contains system pattern: 'ack'" = true)
    /\ (message_id ∈ sent_message_ids w ->
          is_system_generated_email "ack" sender message_id w
            = (Returned (true, "Email was sent by this system"), w))
    /\ (forall r w',
          (forall t m, api_get_message out t message_id = Returned m ->
                       body_of m = "ack") ->
          process_message out server_start_time message_id w = (r, w') ->
          r <> Returned Handled /\ agent_calls w' = agent_calls w).
Proof.
  intros out sst content sender id w content_lower. subst content_lower.
  split.
  { exists (fst (system_generated (sent_message_ids w) content sender id)),
           (snd (system_generated (sent_message_ids w) content sender id)).
    split.
    - unfold is_system_generated_email, bind, get_world, ret.
      by destruct (system_generated _ _ _ _).
    - apply system_generated_true_iff. }
  split.
  { intros Hnot. split; [|by vm_compute].
    unfold is_system_generated_email, bind, get_world, ret, system_generated.
    rewrite bool_decide_eq_false_2 by done. by vm_compute. }
  split.
  { intros Hin.
    unfold is_system_generated_email, bind, get_world, ret, system_generated.
    by rewrite bool_decide_eq_true_2 by done. }
  intros r w' Hbody Hrun.
  destruct (rejected_not_handled out sst id w r w') as [Hr Hsame]; [|done|].
  - intros t m sender' Hm. rewrite (Hbody t m Hm).
    apply reply_body_marked. by left.
  - split; [done|]. apply Hsame.
Qed.

Lemma is_system_generated_email_classification_witness :
  is_system_generated_email "ack" "jonathanmingli@gmail.com" "m1" idle_world
    = (Returned (true, "Email contains system pattern: 'ack'"), idle_world)
  /\ is_system_generated_email "ack" "jonathanmingli@gmail.com" "m1"
       replied_world
     = (Returned (true, "Email was sent by this system"), replied_world)
  /\ agent_calls (snd (process_message echo_out demo_start "m1" idle_world)) = [].
Proof.
  pose proof (is_system_generated_email_classification echo_out demo_start
                "ack" "jonathanmingli@gmail.com" "m1" idle_world)
    as (_ & Hack & _ & Hskip).
  pose proof (is_system_generated_email_classification echo_out demo_start
                "ack" "jonathanmingli@gmail.com" "m1" replied_world)
    as (_ & _ & Hown & _).
  split; [|split].
  - apply Hack. apply (bool_decide_eq_false_1 _). by vm_compute.
  - apply Hown. apply (bool_decide_eq_true_1 _). by vm_compute.
  - destruct (process_message echo_out demo_start "m1" idle_world)
      as [r w'] eqn:Erun.
    apply (Hskip r w'); [|done].
    intros t m Hm. vm_compute in Hm. by injection Hm as <-.
Defined.

(** C7, as stated, fails twice.  The code has a sixth pattern,
    ['Claude response generated'], outside the five kinds of marker the
    claim lists: a body of 33 characters holding it and none of the five is
    answered true.  And the reason given for the body ["ack"] does not
    contain "ack" when the message id is itself recorded as sent: the id
    rule comes first, with the reason ["Email was sent by this system"]. *)
Lemma listed_markers_counterexample :
  spec_isSystemGenerated ∅ "Claude response generated for you" "m1" = false
  /\ is_system_generated_email "Claude response generated for you"
       "jonathanmingli@gmail.com" "m1" idle_world
     = (Returned (true,
                  "Email contains system pattern: 'Claude response generated'"),
        idle_world)
  /\ is_system_generated_email "ack" "jonathanmingli@gmail.com" "m1"
       replied_world
     = (Returned (true, "Email was sent by this system"), replied_world)
  /\ PyStr.contains "ack" "Email was sent by this system" = false.
Proof. repeat split; by vm_compute. Qed.

(** Trimming follows Python's [str.strip]: a trailing no-break space
    (U+00A0) is removed, which leaves nine characters, below the minimum. *)
Example trailing_no_break_space_is_trimmed :
  String.length
    (PyStr.strip (PyStr.lower ("run tests" +:+ String (ascii_of_nat 160) EmptyString)))
    = 9
  /\ fst (system_generated ∅
            ("run tests" +:+ String (ascii_of_nat 160) EmptyString)
            "jonathanmingli@gmail.com" "m1") = true.
Proof. split; by vm_compute. Qed.

(** C8. A reply of this handler does not come back as input.  Every reply
    [process_notification] hands to the mail API has one of the four bodies
    (acknowledgment, progress update, final result, error notice).  A
    candidate whose body is one of these, or whose id is recorded among the
    sent replies, is never handled, whatever its sender, recipient and
    subject: no agent call, no reply, no ledger change. *)
Theorem own_replies_never_reach_agent :
  forall out server_start_time,
    (forall notification_data w r w',
       replies_marked w ->
       process_notification out server_start_time notification_data w = (r, w') ->
       replies_marked w')
    /\
    (forall message_id w r w',
       (forall t m, api_get_message out t message_id = Returned m ->
                    is_reply_body (body_of m))
       \/ message_id ∈ sent_message_ids w ->
       process_message out server_start_time message_id w = (r, w') ->
       r <> Returned Handled
       /\ agent_calls w' = agent_calls w
       /\ outbox w' = outbox w
       /\ same_ledger w w').
Proof.
  intros out sst. split.
  - intros n w r w' Hw Hrun.
    eapply preserves_process_notification; eauto.
  - intros id w r w' Hown Hrun.
    destruct (rejected_not_handled out sst id w r w') as [Hr Hsame]; [|done|].
    + intros t m sender Hm. destruct Hown as [Hbody|Hsent].
      * apply reply_body_marked. eauto.
      * apply system_generated_true_iff. by left.
    + repeat split; try done; apply Hsame.
Qed.

Lemma own_replies_never_reach_agent_witness :
  replies_marked
    (snd (process_notification demo_out demo_start
            (Notification (Some "jonathanmingli@gmail.com") (Some "h1"))
            idle_world))
  /\ agent_calls (snd (process_message echo_out demo_start "m1" idle_world)) = [].
Proof.
  pose proof (own_replies_never_reach_agent demo_out demo_start) as [Hsend _].
  pose proof (own_replies_never_reach_agent echo_out demo_start) as [_ Hskip].
  split.
  - destruct (process_notification demo_out demo_start _ idle_world)
      as [r w'] eqn:Erun.
    eapply (Hsend _ idle_world r w'); [by apply Forall_nil | exact Erun].
  - destruct (process_message echo_out demo_start "m1" idle_world)
      as [r w'] eqn:Erun.
    apply (Hskip "m1" idle_world r w'); [|exact Erun].
    left. intros t m Hm. vm_compute in Hm. injection Hm as <-. by left.
Defined.

(** ** Staleness *)

Lemma is_stale_true_iff sst ts :
  is_stale sst ts = true <->
  exists t, ts = Some t /\ t <> Qc_of_Z 0 /\ (t < sst)%Qc.
Proof.
  unfold is_stale. destruct ts as [t|].
  - rewrite andb_true_iff, negb_true_iff, bool_decide_eq_false,
      bool_decide_eq_true.
    split; [intros []; eauto | intros (t' & [= <-] & ? & ?); done].
  - split; [done | intros (t & [=] & _)].
Qed.

Lemma process_message_stale out sst id w ts w1 :
  id ∉ processed_messages w ->
  retry (get_message_timestamp out id) w = (Returned ts, w1) ->
  is_stale sst ts = true ->
  process_message out sst id w = (Returned Stale, w1).
Proof.
  intros Hnew Hts Hstale.
  unfold process_message, bind at 1, is_processed, bind at 1, get_world, ret at 1.
  simpl. rewrite bool_decide_eq_false_2 by done.
  unfold bind at 1, gates, bind at 1. by rewrite Hts, Hstale.
Qed.

Lemma process_message_not_stale out sst id w ts w1 r w' :
  retry (get_message_timestamp out id) w = (Returned ts, w1) ->
  is_stale sst ts = false ->
  process_message out sst id w = (r, w') ->
  r <> Returned Stale.
Proof.
  intros Hts Hfresh Hrun.
  unfold process_message, bind at 1, is_processed, bind at 1, get_world, ret at 1
    in Hrun.
  simpl in Hrun.
  destruct (bool_decide (id ∈ processed_messages w)).
  { by injection Hrun as <- <-. }
  unfold bind at 1 in Hrun.
  destruct (gates out sst id w) as [[g|e] w2] eqn:Eg.
  - pose proof (gates_returns _ _ _ _ _ _ Eg) as Hg.
    destruct g as [v|[[content sender] subject]].
    + injection Hrun as <- <-. intros [= ->].
      destruct Hg as (_ & _ & Hwhy).
      destruct (Hwhy eq_refl) as (ts' & w1' & Hts' & Hstale).
      congruence.
    + unfold bind in Hrun.
      destruct (mark_processed id w2) as [[?|?] ?];
        [destruct (respond _ _ _ _ _ _) as [[?|?] ?]|];
        by injection Hrun as <- <-.
  - by injection Hrun as <- <-.
Qed.

(** C3, as the code has it.  The staleness test fires exactly when the
    timestamp fetch returned a value that is not zero and lies strictly
    before the server start.  When it fires, a candidate not yet processed is
    skipped as stale whatever its sender, recipient, subject and body, and
    nothing but the clock changes.  When it does not fire -- the timestamp is
    at or after the server start, or is reported as 0, or the fetch was
    unavailable -- the candidate is never skipped as stale. *)
Theorem staleness_boundary :
  forall out server_start_time message_id w ts w1,
    retry (get_message_timestamp out message_id) w = (Returned ts, w1) ->
    (is_stale server_start_time ts = true <->
       exists t, ts = Some t /\ t <> Qc_of_Z 0 /\ (t < server_start_time)%Qc)
    /\ (is_stale server_start_time ts = true ->
        message_id ∉ processed_messages w ->
        process_message out server_start_time message_id w = (Returned Stale, w1)
        /\ same_ledger w w1)
    /\ (ts = None \/ ts = Some (Qc_of_Z 0)
        \/ (exists t, ts = Some t /\ (server_start_time <= t)%Qc) ->
        forall r w',
          process_message out server_start_time message_id w = (r, w') ->
          r <> Returned Stale).
Proof.
  intros out sst id w ts w1 Hts.
  split; [apply is_stale_true_iff|]. split.
  - intros Hstale Hnew. split; [by eapply process_message_stale|].
    eapply (preserves_retry _ (same_ledger_stable w));
      [|exact Hts|apply same_ledger_refl].
    by apply preserves_get_message_timestamp.
  - intros Hfresh r w' Hrun.
    eapply process_message_not_stale; [exact Hts| |exact Hrun].
    destruct (is_stale sst ts) eqn:Ests; [|done].
    apply is_stale_true_iff in Ests as (t & -> & Hnz & Hlt).
    destruct Hfresh as [?|[[= Hz]|(t' & [= <-] & Hle)]]; [done|done|].
    exfalso. by apply (Qclt_not_le t sst).
Qed.

Lemma staleness_boundary_witness :
  process_message old_out demo_start "m1" idle_world =
    (Returned Stale, advance 1 [] idle_world)
  /\ fst (process_message demo_out demo_start "m1" idle_world) <> Returned Stale.
Proof.
  split.
  - pose proof (staleness_boundary old_out demo_start "m1" idle_world
                  (Some (Qc_of_Z 500000 / Qc_of_Z 1000)%Qc)
                  (advance 1 [] idle_world) eq_refl) as (_ & Hskip & _).
    apply Hskip; [by vm_compute | apply (bool_decide_eq_false_1 _); by vm_compute].
  - pose proof (staleness_boundary demo_out demo_start "m1" idle_world
                  (Some (Qc_of_Z 2000000 / Qc_of_Z 1000)%Qc)
                  (advance 1 [] idle_world) eq_refl) as (_ & _ & Hkeep).
    destruct (process_message demo_out demo_start "m1" idle_world)
      as [r w'] eqn:Erun.
    apply (Hkeep) with (w' := w'); [|done].
    right; right. eexists. split; [done|]. by vm_compute.
Defined.

(** C3, as stated, fails when the timestamp fetch reports 0: the message
    without [internalDate] has timestamp 0, strictly before the server start
    at second 1000, and is not skipped; it is handled and the agent runs. *)
Lemma zero_timestamp_counterexample :
  fst (retry (get_message_timestamp undated_out "m1") idle_world) =
    Returned (Some (Qc_of_Z 0 / Qc_of_Z 1000)%Qc)
  /\ (Qc_of_Z 0 / Qc_of_Z 1000 < demo_start)%Qc
  /\ fst (process_message undated_out demo_start "m1" idle_world) =
       Returned Handled
  /\ agent_calls (snd (process_message undated_out demo_start "m1" idle_world)) =
       [("do the thing", "jonathanmingli@gmail.com")].
Proof. repeat split; by vm_compute. Qed.

(** ** Unavailable candidate resolution *)

Lemma cleanup_returns out w :
  exists w1, cleanup_processed_messages out w = (Returned tt, w1)
             /\ outbox w1 = outbox w /\ agent_calls w1 = agent_calls w.
Proof.
  destruct (decide (Qc_of_Z 3600 < wall_clock out (tick w) - last_cleanup_time w)%Qc).
  - rewrite cleanup_open by done. eauto.
  - rewrite cleanup_closed by done. eauto.
Qed.

Lemma resolve_unavailable out history_id w w1 w2 unavailable :
  retry (get_history out history_id) w = (Returned unavailable, w1) ->
  unavailable = None \/ unavailable = Some [] ->
  retry (get_recent_messages out "is:unread" 5) w1 = (Returned None, w2) ->
  resolve out history_id w = (Returned None, w2).
Proof.
  intros Hhist Hnone Hlist. unfold resolve, try_except, bind.
  rewrite Hhist. unfold unread_fallback.
  destruct Hnone as [->| ->]; by rewrite Hlist.
Qed.

(** C2 does not hold of the code.  When the history lookup yields nothing
    (the unavailable sentinel, or an empty list) and the unread-query fallback
    yields the unavailable sentinel, [process_notification] returns normally
    at lines 234-236 without looking at any candidate: no reply is sent, no
    agent call made, and the history id stays claimed.  [callback] cannot
    tell this return from a completed one and acknowledges the envelope,
    against its own comments ("Only ack after successful processing",
    "Negative ack so message can be retried"); the nack is reached only when
    the wait on the worker times out.  The notification is lost: it is not
    redelivered, and its history id is claimed, so a redelivery would be
    dropped as a duplicate. *)
Theorem unavailable_resolution_is_acknowledged :
  forall out server_start_time notification_data w w1 w2 w3 w4 unavailable,
    cleanup_processed_messages out w = (Returned tt, w1) ->
    claim_history (historyId notification_data) w1 = (Returned true, w2) ->
    retry (get_history out (historyId notification_data)) w2 =
      (Returned unavailable, w3) ->
    unavailable = None \/ unavailable = Some [] ->
    retry (get_recent_messages out "is:unread" 5) w3 = (Returned None, w4) ->
    process_notification out server_start_time notification_data w =
      (Returned tt, w4)
    /\ callback out server_start_time
         (Envelope (Returned notification_data) false) w = (Ack, w4)
    /\ callback out server_start_time
         (Envelope (Returned notification_data) true) w = (Nack, w4)
    /\ historyId notification_data ∈ processed_history_ids w4
    /\ processed_messages w4 = processed_messages w1
    /\ outbox w4 = outbox w
    /\ agent_calls w4 = agent_calls w.
Proof.
  intros out sst n w w1 w2 w3 w4 unavailable Hclean Hclaim Hhist Hnone Hlist.
  pose proof (resolve_unavailable _ _ _ _ _ _ Hhist Hnone Hlist) as Hres.
  assert (process_notification out sst n w = (Returned tt, w4)) as Hrun.
  { unfold process_notification, try_except.
    unfold bind at 1. rewrite Hclean.
    unfold bind at 1. rewrite Hclaim. simpl.
    unfold bind at 1. by rewrite Hres. }
  split; [done|]. unfold callback. simpl. rewrite Hrun.
  split; [done|]. split; [done|].
  destruct (cleanup_returns out w) as (w1' & Hclean' & Hout1 & Hag1).
  rewrite Hclean in Hclean'. injection Hclean' as <-.
  unfold claim_history, bind, get_world, ret, modify in Hclaim.
  simpl in Hclaim. case_bool_decide as Hseen; [discriminate|].
  injection Hclaim as <-.
  set (J := fun w' : world =>
              historyId n ∈ processed_history_ids w'
              /\ processed_messages w' = processed_messages w1
              /\ outbox w' = outbox w
              /\ agent_calls w' = agent_calls w).
  assert (time_stable J) as HJ by (intros w0 Hw0; split; [|intros d]; exact Hw0).
  enough (J w4) as (? & ? & ? & ?) by done.
  eapply (preserves_resolve out J HJ); [exact Hres|].
  unfold J. simpl. repeat split; try done.
  apply elem_of_union_l. by apply elem_of_singleton.
Qed.

Lemma unavailable_resolution_is_acknowledged_witness :
  callback down_out demo_start (Envelope (Returned demo_notification) false)
    idle_world =
    (Ack,
     World 7 [4; 2; 4; 2] ∅ {[ Some "h1" ]} ∅ (Qc_of_Z 1000) [] []).
Proof.
  pose proof (unavailable_resolution_is_acknowledged down_out demo_start
                demo_notification idle_world
                (advance 1 [] idle_world)
                (with_processed_history_ids {[ Some "h1" ]}
                   (advance 1 [] idle_world))
                (with_processed_history_ids {[ Some "h1" ]}
                   (advance 4 [4; 2] idle_world))
                (with_processed_history_ids {[ Some "h1" ]}
                   (advance 7 [4; 2; 4; 2] idle_world))
                None) as Hthm.
  destruct Hthm as (_ & Hack & _).
  - by vm_compute.
  - by vm_compute.
  - by vm_compute.
  - by left.
  - by vm_compute.
  - rewrite Hack. by vm_compute.
Defined.

(** The failing run of C2: with the history lookup and the unread query both
    out of retries, candidate resolution yields the unavailable sentinel, and
    the envelope is acknowledged, not nacked. *)
Lemma unavailable_resolution_counterexample :
  fst (resolve down_out (Some "h1") idle_world) = Returned None
  /\ fst (callback down_out demo_start
            (Envelope (Returned demo_notification) false) idle_world) = Ack.
Proof. split; by vm_compute. Qed.

(** ** A candidate whose thread id cannot be found *)

Lemma progress_callback_silent out thread_id sender subject updates text w :
  truthy_str thread_id = false
  \/ String.length text <= 50
  \/ (List.length updates + 1) `mod` 3 <> 0 ->
  progress_callback out thread_id sender subject updates text w =
    (Returned (updates ++ [text])%list, w).
Proof.
  intros Hwhy. unfold progress_callback.
  destruct thread_id as [thread|]; [|done].
  destruct (PyStr.is_empty thread) eqn:Ethread; [done|].
  destruct (Nat.ltb_spec 50 (String.length text)) as [Hlong|Hshort]; [|done].
  cbn [negb andb]. rewrite length_app. cbn [List.length].
  destruct (Nat.eqb_spec ((List.length updates + 1) `mod` 3) 0) as [Hthird|];
    [|done].
  destruct Hwhy as [Hth|[?|?]]; [|lia|done].
  simpl in Hth. by rewrite Ethread in Hth.
Qed.

Lemma stream_silent out thread_id sender subject chunks :
  truthy_str thread_id = false ->
  forall updates w,
    stream (progress_callback out thread_id sender subject) updates chunks w =
      (Returned (updates ++ chunks)%list, w).
Proof.
  intros Hfalsy. induction chunks as [|text chunks IH]; intros updates w; simpl.
  - by rewrite app_nil_r.
  - unfold bind. rewrite progress_callback_silent by auto.
    rewrite IH. by rewrite <- app_assoc.
Qed.

Lemma respond_without_thread out id content sender subject w thread_id w2 :
  retry (get_thread_id out id) w = (Returned thread_id, w2) ->
  truthy_str thread_id = false ->
  respond out id content sender subject w =
    (Returned tt, with_agent_call (content, sender) (bump w2)).
Proof.
  intros Hthread Hfalsy. unfold respond.
  unfold bind at 1. rewrite Hthread, Hfalsy. simpl.
  unfold bind at 1, ret at 1.
  unfold try_except at 1, bind at 1, process_email_request_streaming.
  unfold try_except at 1, bind at 1, start_session.
  unfold bind at 1. rewrite stream_silent by done.
  destruct (agent_failure _) as [err|]; [done|].
  by destruct (agent_chunks _).
Qed.

(** C10, as the code has it.  A candidate that passes every gate and whose
    thread-id lookup then yields nothing usable ([None] after the retries,
    or an empty id) is handled all the same: it is marked processed, the
    agent is invoked once with its body and sender, and in that pass no
    reply of any kind is handed to the mail API and no reply id recorded.
    The message is skipped as already processed whenever it is seen again
    in a state whose processed set still holds its id. *)
Theorem missing_thread_id_silences_replies :
  forall out server_start_time message_id w content sender subject w1
         thread_id w2,
    message_id ∉ processed_messages w ->
    gates out server_start_time message_id w =
      (Returned (inr (content, sender, subject)), w1) ->
    retry (get_thread_id out message_id) (snd (mark_processed message_id w1)) =
      (Returned thread_id, w2) ->
    truthy_str thread_id = false ->
    let w' := with_agent_call (content, sender) (bump w2) in
    process_message out server_start_time message_id w = (Returned Handled, w')
    /\ message_id ∈ processed_messages w'
    /\ agent_calls w' = (content, sender) :: agent_calls w
    /\ outbox w' = outbox w
    /\ sent_message_ids w' = sent_message_ids w
    /\ (forall out' start' w'',
          message_id ∈ processed_messages w'' ->
          process_message out' start' message_id w'' =
            (Returned AlreadyProcessed, w'')).
Proof.
  intros out sst id w content sender subject w1 thread_id w2
    Hnew Hgates Hthread Hfalsy w'.
  pose proof (gates_quiet _ _ _ _ _ _ Hgates) as (Hpm & _ & Hsent & _ & Hout & Hag).
  assert (same_ledger (snd (mark_processed id w1)) w2) as (Hpm2 & _ & Hs2 & _ & Ho2 & Ha2).
  { eapply (preserves_retry _ (same_ledger_stable _));
      [|exact Hthread|apply same_ledger_refl].
    by apply preserves_get_thread_id, same_ledger_stable. }
  simpl in Hpm2, Hs2, Ho2, Ha2.
  assert (id ∈ processed_messages w') as Hin.
  { subst w'. simpl. rewrite Hpm2.
    apply elem_of_union_l. by apply elem_of_singleton. }
  split.
  { unfold process_message, bind at 1, is_processed, bind at 1, get_world,
      ret at 1.
    simpl. rewrite bool_decide_eq_false_2 by done.
    unfold bind at 1. rewrite Hgates.
    unfold bind at 1. simpl.
    unfold bind at 1.
    by rewrite (respond_without_thread _ _ _ _ _ _ _ _ Hthread Hfalsy). }
  split; [done|].
  subst w'. simpl. rewrite Ha2, Hag, Ho2, Hout, Hs2, Hsent.
  repeat split; try done.
  intros out' start' w'' Hseen. by apply process_message_seen.
Qed.

Lemma missing_thread_id_silences_replies_witness :
  let w' := snd (process_message flaky_out demo_start "m1" idle_world) in
  fst (process_message flaky_out demo_start "m1" idle_world) = Returned Handled
  /\ agent_calls w' = [("do the thing", "jonathanmingli@gmail.com")]
  /\ outbox w' = []
  /\ process_message demo_out demo_start "m1" w' = (Returned AlreadyProcessed, w').
Proof.
  pose proof (missing_thread_id_silences_replies flaky_out demo_start "m1"
                idle_world "do the thing" "jonathanmingli@gmail.com" "claude"
                (advance 7 [] idle_world) None
                (with_processed_messages {[ "m1" ]}
                   (advance 10 [4; 2] idle_world))) as Hthm.
  destruct Hthm as (Hrun & Hin & Hcalls & Hout & _ & Hskip).
  - apply (bool_decide_eq_false_1 _). by vm_compute.
  - by vm_compute.
  - by vm_compute.
  - reflexivity.
  - simpl. rewrite Hrun. simpl.
    split; [done|]. split; [by vm_compute|]. split; [by vm_compute|].
    by apply Hskip.
Defined.

(** C10, as stated, fails in its last part.  The processed set is compacted
    once it holds more than 100 ids and an hour has passed, and the ids
    dropped are forgotten.  Here the first notification handles ["m1"] while
    the thread-id lookup is unavailable: one agent call, no reply.  Two
    hours later a second notification lists ["m1"] again; the compaction at
    its start drops the id, the message passes every gate a second time,
    the agent is invoked again, and this time the acknowledgment, a progress
    update and the final result are sent. *)
Lemma evicted_message_counterexample :
  let first_pass :=
    snd (process_notification evicting_out demo_start demo_notification
           busy_world) in
  let second_pass :=
    snd (process_notification evicting_out demo_start later_notification
           first_pass) in
  fst (retry (get_thread_id evicting_out "m1") (advance 9 [] busy_world))
    = Returned None
  /\ "m1" ∈ processed_messages first_pass
  /\ agent_calls first_pass = [("do the thing", "jonathanmingli@gmail.com")]
  /\ outbox first_pass = []
  /\ agent_calls second_pass =
       [("do the thing", "jonathanmingli@gmail.com");
        ("do the thing", "jonathanmingli@gmail.com")]
  /\ reply_body <$> outbox second_pass =
       [final_email (PyStr.join_lines [long_chunk; long_chunk; long_chunk]);
        progress_email long_chunk;
        ack_email].
Proof.
  split; [by vm_compute|].
  split; [apply (bool_decide_eq_true_1 _); by vm_compute|].
  repeat split; by vm_compute.
Qed.

(** ** Progress replies *)

Lemma retry_first_try {A} (operation : M A) w v w1 :
  operation w = (Returned v, w1) ->
  retry operation w = (Returned (Some v), w1).
Proof.
  intros Hop. unfold retry, retry_gmail_operation. simpl.
  unfold try_except, bind. by rewrite Hop.
Qed.

Lemma send_and_track_answered out thread sender subject body w o :
  api_send out (tick w) (Reply thread sender (reply_subject_for subject) body)
    = Returned o ->
  send_and_track out thread sender subject body w =
    (Returned tt,
     World (S (tick w)) (slept w) (processed_messages w)
       (processed_history_ids w)
       (recorded out (tick w)
          [Reply thread sender (reply_subject_for subject) body]
        ∪ sent_message_ids w)
       (last_cleanup_time w)
       (Reply thread sender (reply_subject_for subject) body :: outbox w)
       (agent_calls w)).
Proof.
  intros Hsend. unfold send_and_track. unfold bind at 1.
  rewrite (retry_first_try _ w o
             (with_outbox (Reply thread sender (reply_subject_for subject) body)
                (bump w))).
  2:{ unfold send_reply_email, try_except, post. by rewrite Hsend. }
  simpl. rewrite Hsend.
  destruct o as [reply_id|]; simpl.
  - destruct (PyStr.is_empty reply_id); unfold ret, modify; simpl;
      do 2 f_equal; by rewrite ?(left_id_L ∅ (∪)), ?(right_id_L ∅ (∪)).
  - unfold ret. do 2 f_equal. by rewrite (left_id_L ∅ (∪)).
Qed.

Lemma progress_callback_forwards out thread sender subject updates text w o :
  PyStr.is_empty thread = false ->
  50 < String.length text ->
  (List.length updates + 1) `mod` 3 = 0 ->
  api_send out (tick w) (progress_reply thread sender subject text) = Returned o ->
  progress_callback out (Some thread) sender subject updates text w =
    (Returned (updates ++ [text])%list,
     World (S (tick w)) (slept w) (processed_messages w)
       (processed_history_ids w)
       (recorded out (tick w) [progress_reply thread sender subject text]
        ∪ sent_message_ids w)
       (last_cleanup_time w)
       (progress_reply thread sender subject text :: outbox w)
       (agent_calls w)).
Proof.
  intros Hthread Hlong Hthird Hsend. unfold progress_callback.
  rewrite Hthread. apply Nat.ltb_lt in Hlong. rewrite Hlong.
  cbn [negb andb]. rewrite length_app. cbn [List.length].
  rewrite Hthird. cbn [Nat.eqb].
  unfold bind. by rewrite (send_and_track_answered _ _ _ _ _ _ o).
Qed.

Lemma stream_progress out thread sender subject chunks :
  PyStr.is_empty thread = false ->
  (forall t r, exists o, api_send out t r = Returned o) ->
  forall updates w,
    let replies :=
      map (progress_reply thread sender subject)
          (forwarded (List.length updates) chunks) in
    stream (progress_callback out (Some thread) sender subject) updates chunks w
    = (Returned (updates ++ chunks)%list,
       World (tick w + List.length replies) (slept w) (processed_messages w)
         (processed_history_ids w)
         (recorded out (tick w) replies ∪ sent_message_ids w)
         (last_cleanup_time w)
         (rev replies ++ outbox w)%list
         (agent_calls w)).
Proof.
  intros Hthread Hsend.
  induction chunks as [|text chunks IH]; intros updates w;
    cbn [stream forwarded].
  - unfold ret. simpl. rewrite app_nil_r, Nat.add_0_r, (left_id_L ∅ (∪)).
    by destruct w.
  - unfold bind.
    assert (List.length (updates ++ [text]) = S (List.length updates)) as Hlen
      by (rewrite length_app; simpl; lia).
    destruct (Nat.ltb_spec 50 (String.length text)) as [Hlong|Hshort];
      [destruct (Nat.eqb_spec (S (List.length updates) `mod` 3) 0)
         as [Hthird|Hother]|].
    + destruct (Hsend (tick w) (progress_reply thread sender subject text))
        as [o Ho].
      rewrite (progress_callback_forwards _ _ _ _ _ _ _ o)
        by (try done; by rewrite Nat.add_1_r).
      rewrite IH, Hlen. cbn [andb map List.length rev].
      simpl. rewrite Ho. f_equal; [by rewrite <- app_assoc|].
      f_equal; [lia| |by rewrite <- app_assoc].
      destruct o as [reply_id|]; [destruct (PyStr.is_empty reply_id)|];
        rewrite ?(left_id_L ∅ (∪)), ?(right_id_L ∅ (∪)); try done.
      by rewrite (assoc_L (∪)), (comm_L (∪) _ {[reply_id]}).
    + rewrite progress_callback_silent
        by (right; right; by rewrite Nat.add_1_r).
      rewrite IH, Hlen. cbn [andb]. by rewrite <- app_assoc.
    + rewrite progress_callback_silent by (right; left; lia).
      rewrite IH, Hlen. cbn [andb]. by rewrite <- app_assoc.
Qed.

Lemma forwarded_spec chunks : forall seen text,
  text ∈ forwarded seen chunks <->
  exists k, chunks !! k = Some text
            /\ 50 < String.length text
            /\ (seen + k + 1) `mod` 3 = 0.
Proof.
  induction chunks as [|c chunks IH]; intros seen text.
  - cbn [forwarded]. split; [by intros ?%elem_of_nil|].
    intros (k & Hk & _). by rewrite lookup_nil in Hk.
  - cbn [forwarded].
    assert (text ∈ forwarded (S seen) chunks <->
            exists k, (c :: chunks) !! S k = Some text
                      /\ 50 < String.length text
                      /\ (seen + S k + 1) `mod` 3 = 0) as Htail.
    { rewrite IH.
      split; intros (k & Hk & Hl & Hp); exists k;
        (split; [exact Hk|split; [exact Hl|]]);
        [replace (seen + S k + 1) with (S seen + k + 1) by lia
        |replace (S seen + k + 1) with (seen + S k + 1) by lia]; exact Hp. }
    destruct (Nat.ltb_spec 50 (String.length c)) as [Hlong|Hshort];
      [destruct (Nat.eqb_spec (S seen `mod` 3) 0) as [Hthird|Hother]|];
      cbn [andb]; rewrite ?elem_of_cons, Htail.
    + split.
      * intros [->|(k & ?)]; [|eauto].
        exists 0. by rewrite Nat.add_0_r, Nat.add_1_r.
      * intros ([|k] & Hk & ? & ?); [left; by injection Hk|right; eauto].
    + split; [intros (k & ?); eauto|].
      intros ([|k] & Hk & ? & Hpos); [|eauto].
      rewrite Nat.add_0_r, Nat.add_1_r in Hpos. done.
    + split; [intros (k & ?); eauto|].
      intros ([|k] & Hk & Hlen & ?); [|eauto].
      injection Hk as ->. lia.
Qed.

Lemma send_reply_email_outbox out thread to subject body w r w' :
  send_reply_email out thread to subject body w = (r, w') ->
  outbox w' = Reply thread to (reply_subject_for subject) body :: outbox w.
Proof.
  unfold send_reply_email, try_except, post.
  destruct (api_send out (tick w) _) as [o|e].
  - by intros [= <- <-].
  - destruct (exn_cls e); unfold ret, raise; by intros [= <- <-].
Qed.

Lemma replicate_app_cons {A} (x : A) n l :
  (replicate n x ++ x :: l)%list = (replicate (S n) x ++ l)%list.
Proof. induction n as [|n IH]; [done|]. simpl in *. by rewrite IH. Qed.

Lemma retry_loop_outbox {A} (operation : M A) (r0 : reply) max_retries delay :
  (forall w r w', operation w = (r, w') -> outbox w' = r0 :: outbox w) ->
  forall remaining attempt w r w',
    retry_loop operation max_retries delay remaining attempt w = (r, w') ->
    exists n, n <= remaining /\ (0 < remaining -> 0 < n)
              /\ outbox w' = (replicate n r0 ++ outbox w)%list.
Proof.
  intros Hop. induction remaining as [|remaining IH]; intros attempt w r w'.
  - simpl. unfold ret. intros [= <- <-]. exists 0. split; [lia|]. split; [lia|done].
  - cbn [retry_loop]. unfold try_except, bind at 1.
    destruct (operation w) as [[v|e] w1] eqn:Eop;
      pose proof (Hop _ _ _ Eop) as Hout.
    + unfold ret. intros [= <- <-]. exists 1. split; [lia|]. split; [lia|done].
    + destruct (is_transient e);
        [destruct (Nat.eqb attempt (max_retries - 1))|].
      * unfold ret. intros [= <- <-]. exists 1. split; [lia|]. split; [lia|done].
      * unfold bind, sleep, modify. intros Hrest.
        destruct (IH _ _ _ _ Hrest) as (n & Hn & _ & Hout').
        exists (S n). split; [lia|]. split; [lia|].
        rewrite Hout'. simpl outbox. rewrite Hout. apply replicate_app_cons.
      * unfold raise. intros [= <- <-]. exists 1. split; [lia|]. split; [lia|done].
Qed.

Lemma send_and_track_hands_over out thread sender subject body w :
  exists n,
    1 <= n <= 3
    /\ outbox (snd (send_and_track out thread sender subject body w)) =
         (replicate n (Reply thread sender (reply_subject_for subject) body)
            ++ outbox w)%list.
Proof.
  unfold send_and_track, bind.
  destruct (retry (send_reply_email out thread sender subject body) w)
    as [[sent|e] w1] eqn:Eretry.
  all: destruct (retry_loop_outbox _ _ _ _
                   (send_reply_email_outbox out thread sender subject body)
                   _ _ _ _ _ Eretry) as (n & Hn & Hpos & Hout).
  all: exists n; split; [lia|].
  - destruct (mjoin sent) as [reply_id|]; [destruct (PyStr.is_empty reply_id)|];
      done.
  - done.
Qed.

Lemma progress_callback_hands_over out thread sender subject updates text w :
  PyStr.is_empty thread = false ->
  50 < String.length text ->
  (List.length updates + 1) `mod` 3 = 0 ->
  exists n,
    1 <= n <= 3
    /\ outbox (snd (progress_callback out (Some thread) sender subject
                      updates text w)) =
         (replicate n (progress_reply thread sender subject text)
            ++ outbox w)%list.
Proof.
  intros Hthread Hlong Hthird. unfold progress_callback.
  rewrite Hthread. apply Nat.ltb_lt in Hlong. rewrite Hlong.
  cbn [negb andb]. rewrite length_app. cbn [List.length].
  rewrite Hthird. cbn [Nat.eqb].
  destruct (send_and_track_hands_over out thread sender subject
              (progress_email text) w) as (n & Hn & Hout).
  exists n. split; [done|]. unfold bind.
  by destruct (send_and_track out thread sender subject (progress_email text) w)
    as [[[]|e] w1].
Qed.

Lemma progress_callback_step out thread_id sender subject updates text w :
  (exists handed,
     outbox (snd (progress_callback out thread_id sender subject updates text w))
       = (handed ++ outbox w)%list
     /\ forall r, r ∈ handed ->
          exists thread,
            thread_id = Some thread
            /\ 50 < String.length text
            /\ (List.length updates + 1) `mod` 3 = 0
            /\ r = progress_reply thread sender subject text)
  /\ (forall s', fst (progress_callback out thread_id sender subject updates
                        text w) = Returned s' ->
                 s' = (updates ++ [text])%list).
Proof.
  destruct (decide (truthy_str thread_id = false
                    \/ String.length text <= 50
                    \/ (List.length updates + 1) `mod` 3 <> 0)) as [Hcase|Hcase].
  { rewrite (progress_callback_silent _ _ _ _ _ _ _ Hcase). split.
    - exists []. split; [done|]. by intros r ?%elem_of_nil.
    - by intros s' [= <-]. }
  destruct thread_id as [thread|]; [|exfalso; apply Hcase; by left].
  destruct (PyStr.is_empty thread) eqn:Hthread;
    [exfalso; apply Hcase; left; simpl; by rewrite Hthread|].
  assert (50 < String.length text) as Hlong by lia.
  assert ((List.length updates + 1) `mod` 3 = 0) as Hthird by lia.
  split.
  - destruct (progress_callback_hands_over out thread sender subject updates
                text w Hthread Hlong Hthird) as (n & _ & Hout).
    eexists. split; [exact Hout|].
    intros r [-> _]%elem_of_replicate. by exists thread.
  - unfold progress_callback. rewrite Hthread.
    apply Nat.ltb_lt in Hlong. rewrite Hlong.
    cbn [negb andb]. rewrite length_app. cbn [List.length].
    rewrite Hthird. cbn [Nat.eqb]. unfold bind.
    destruct (send_and_track out thread sender subject (progress_email text) w)
      as [[[]|e] w1]; [|done].
    by intros s' [= <-].
Qed.

Lemma forwarded_head seen text rest :
  50 < String.length text ->
  (seen + 1) `mod` 3 = 0 ->
  text ∈ forwarded seen (text :: rest).
Proof.
  intros Hlong Hthird. cbn [forwarded].
  apply Nat.ltb_lt in Hlong. rewrite Hlong.
  rewrite Nat.add_1_r in Hthird. rewrite Hthird. cbn [Nat.eqb andb].
  by left.
Qed.

Lemma forwarded_tail seen text rest x :
  x ∈ forwarded (S seen) rest -> x ∈ forwarded seen (text :: rest).
Proof.
  intros Hx. cbn [forwarded].
  destruct (_ && _); [by right|done].
Qed.

Lemma stream_only_forwards out thread_id sender subject chunks :
  forall updates w,
    exists handed,
      outbox (snd (stream (progress_callback out thread_id sender subject)
                     updates chunks w)) = (handed ++ outbox w)%list
      /\ forall r, r ∈ handed ->
           exists thread text,
             thread_id = Some thread
             /\ text ∈ forwarded (List.length updates) chunks
             /\ r = progress_reply thread sender subject text.
Proof.
  induction chunks as [|text chunks IH]; intros updates w.
  - exists []. split; [done|]. by intros r ?%elem_of_nil.
  - cbn [stream]. unfold bind.
    destruct (progress_callback_step out thread_id sender subject updates
                text w) as ((handed & Hout & Hall) & Hret).
    assert (forall r, r ∈ handed ->
              exists thread text',
                thread_id = Some thread
                /\ text' ∈ forwarded (List.length updates) (text :: chunks)
                /\ r = progress_reply thread sender subject text') as Hhead.
    { intros r Hr. destruct (Hall r Hr) as (thread & -> & Hlong & Hthird & ->).
      exists thread, text. split; [done|]. split; [|done].
      by apply forwarded_head. }
    destruct (progress_callback out thread_id sender subject updates text w)
      as [[s'|e] w1]; simpl in Hout; [|by exists handed].
    rewrite (Hret s' eq_refl).
    destruct (IH (updates ++ [text])%list w1) as (later & Hout' & Hall').
    exists (later ++ handed)%list. split.
    + by rewrite Hout', Hout, <- app_assoc.
    + intros r [Hr|Hr]%elem_of_app; [|by apply Hhead].
      destruct (Hall' r Hr) as (thread & text' & Hth & Htx & ->).
      exists thread, text'. split; [done|]. split; [|done].
      apply forwarded_tail.
      by rewrite length_app, Nat.add_1_r in Htx.
Qed.




(** ** Duplicate notifications in the worker pool *)

Lemma run_single out sst rest p w :
  run_schedule out sst (0 :: rest) [p] w =
  run_schedule out sst rest [fst (worker_step out sst p w)]
    (snd (worker_step out sst p w)).
Proof. simpl. by destruct (worker_step out sst p w). Qed.

(** One worker running its four blocks without interruption does what
    [process_message] does. *)
Lemma worker_alone_is_process_message out sst id w :
  snd (run_schedule out sst [0; 0; 0; 0] [AtCheck id] w) =
  snd (process_message out sst id w).
Proof.
  unfold process_message, bind at 1.
  rewrite run_single. cbn [worker_step].
  destruct (is_processed id w) as [[[|]|e] w1] eqn:Echeck; cbn [fst snd].
  - by rewrite !run_single.
  - rewrite run_single. cbn [worker_step]. unfold bind at 1.
    destruct (gates out sst id w1) as [[[v|[[content sender] subject]]|e] w2]
      eqn:Egates; cbn [fst snd]; try by rewrite !run_single.
    rewrite !run_single. cbn [worker_step fst snd run_schedule].
    unfold bind at 1. unfold mark_processed at 2, modify. unfold bind at 1.
    by destruct (respond out id content sender subject _) as [[[]|e] w3].
  - by rewrite !run_single.
Qed.

(** The history-id path claims in one critical section: of two claims of the
    same id, in whatever order the workers get the lock, the second finds the
    id present. *)
Lemma claim_history_twice history_id w :
  exists first w1,
    claim_history history_id w = (Returned first, w1)
    /\ claim_history history_id w1 = (Returned false, w1).
Proof.
  unfold claim_history, bind, get_world, ret, modify. simpl.
  case_bool_decide as Hseen.
  - exists false, w. split; [done|]. by rewrite bool_decide_eq_true_2.
  - eexists true, _. split; [done|]. simpl.
    rewrite bool_decide_eq_true_2; [done|].
    apply elem_of_union_l. by apply elem_of_singleton.
Qed.

(** C1 fails on the code.  Two workers hold the same candidate ["m1"] (two
    notifications with different history ids that resolve to it).  When both
    run the membership test of lines 246-250 before either reaches the
    insertion of lines 308-310, both pass every gate, both mark the message,
    and the agent is invoked twice for it.  Run one after the other, the same
    two workers invoke it once. *)
Theorem concurrent_duplicates_invoke_agent_twice :
  let workers := [AtCheck "m1"; AtCheck "m1"] in
  let interleaved :=
    run_schedule demo_out demo_start [0; 1; 0; 1; 0; 1; 0; 1] workers idle_world in
  let in_turn :=
    run_schedule demo_out demo_start [0; 0; 0; 0; 1; 1; 1; 1] workers idle_world in
  fst interleaved = [Finished; Finished]
  /\ agent_calls (snd interleaved) =
       [("do the thing", "jonathanmingli@gmail.com");
        ("do the thing", "jonathanmingli@gmail.com")]
  /\ processed_messages (snd interleaved) = {[ "m1" ]}
  /\ fst in_turn = [Finished; Finished]
  /\ agent_calls (snd in_turn) = [("do the thing", "jonathanmingli@gmail.com")].
Proof. repeat split; by vm_compute. Qed.

(** * Further properties *)

(** ** The retry wrapper: success and bounds *)

Lemma retry_loop_success {A} (f : nat -> outcome A) max_retries delay k :
  forall remaining attempt w v,
    k < remaining ->
    attempt + remaining = max_retries ->
    (forall j, j < k -> transient_at f (tick w + j)) ->
    f (tick w + k) = Returned v ->
    retry_loop (external f) max_retries delay remaining attempt w =
      (Returned (Some v), advance (S k) (backoffs delay attempt k) w).
Proof.
  induction k as [|k IH]; intros remaining attempt w v Hk Hsum Hbefore Hf.
  - destruct remaining as [|r]; [lia|].
    cbn [retry_loop]. unfold try_except, bind, external.
    rewrite Nat.add_0_r in Hf. rewrite Hf.
    unfold ret. by rewrite advance_bump.
  - destruct remaining as [|r]; [lia|].
    destruct (Hbefore 0) as (e0 & Hf0 & He0); [lia|].
    rewrite Nat.add_0_r in Hf0.
    cbn [retry_loop]. unfold try_except at 1, bind at 1, external at 1.
    rewrite Hf0, He0.
    destruct (Nat.eqb_spec attempt (max_retries - 1)) as [Hlast|Hmore]; [lia|].
    unfold bind at 1, sleep, modify.
    rewrite (IH r (S attempt) _ v); simpl tick; try lia.
    + rewrite advance_bump_sleep. by rewrite backoffs_cons.
    + intros j Hj. replace (S (tick w) + j) with (tick w + S j) by lia.
      apply Hbefore. lia.
    + by replace (S (tick w) + k) with (tick w + S k) by lia.
Qed.

(** X1. [retry_gmail_operation] returns the first successful result: when the
    operation fails with transient errors on its first [k] calls and returns
    [v] on the next, with [k < max_retries], the wrapper returns [v] after
    exactly [k + 1] calls, having slept [delay * 2 ** attempt] after each of
    the [k] failures and not after the success. *)
Theorem retry_returns_first_success :
  forall (A : Type) (f : nat -> outcome A) (max_retries delay k : nat)
         (w : world) (v : A),
    k < max_retries ->
    (forall j, j < k -> transient_at f (tick w + j)) ->
    f (tick w + k) = Returned v ->
    retry_gmail_operation (external f) max_retries delay w =
      (Returned (Some v), advance (S k) (backoffs delay 0 k) w).
Proof.
  intros A f max_retries delay k w v Hk Hbefore Hf.
  unfold retry_gmail_operation. by apply retry_loop_success.
Qed.

Lemma retry_returns_first_success_witness :
  retry_gmail_operation (external succeeds_on_third) 3 2 idle_world =
    (Returned (Some "thread-9"), advance 3 [4; 2] idle_world).
Proof.
  apply (retry_returns_first_success string succeeds_on_third 3 2 2
           idle_world "thread-9").
  - lia.
  - intros j Hj. destruct j as [|[|j]]; [| |lia];
      eexists; split; reflexivity.
  - reflexivity.
Defined.

Lemma retry_loop_bounded {A} (f : nat -> outcome A) max_retries delay remaining :
  forall attempt w,
    attempt + remaining = max_retries ->
    exists calls,
      calls <= remaining
      /\ (0 < remaining -> 0 < calls)
      /\ snd (retry_loop (external f) max_retries delay remaining attempt w) =
         advance calls (backoffs delay attempt (calls - 1)) w.
Proof.
  induction remaining as [|r IH]; intros attempt w Hsum.
  - exists 0. split; [lia|]. split; [lia|]. simpl. unfold advance.
    destruct w; simpl. f_equal. lia.
  - cbn [retry_loop]. unfold try_except at 1, bind at 1, external at 1.
    destruct (f (tick w)) as [v|e].
    { exists 1. repeat split; try lia. unfold ret. simpl. apply advance_bump. }
    destruct (is_transient e).
    2:{ exists 1. repeat split; try lia. unfold raise. simpl. apply advance_bump. }
    destruct (Nat.eqb_spec attempt (max_retries - 1)) as [Hlast|Hmore].
    { exists 1. repeat split; try lia. unfold ret. simpl. apply advance_bump. }
    unfold bind at 1, sleep, modify.
    destruct (IH (S attempt) (with_slept (delay * 2 ^ attempt) (bump w)))
      as (calls & Hle & Hpos & Hw); [lia|].
    destruct calls as [|c]; [lia|].
    exists (S (S c)). repeat split; try lia.
    rewrite Hw, advance_bump_sleep.
    replace (S c - 1) with c by lia.
    replace (S (S c) - 1) with (S c) by lia.
    by rewrite backoffs_cons.
Qed.

Lemma sum_backoffs delay first n :
  sum_list (backoffs delay first n) + delay * 2 ^ first =
  delay * 2 ^ (first + n).
Proof.
  revert first. induction n as [|n IH]; intros first.
  - simpl. by rewrite Nat.add_0_r.
  - rewrite backoffs_cons, sum_list_with_app. simpl.
    specialize (IH (S first)).
    replace (first + S n) with (S first + n) by lia.
    rewrite <- IH. rewrite Nat.pow_succ_r'. lia.
Qed.

(** X2. Whatever the operation does, [retry_gmail_operation] calls it at most
    [max_retries] times (not at all when [max_retries] is 0), sleeps only
    between calls, with the doubling delays, and so sleeps at most
    [delay * (2 ** (max_retries - 1) - 1)] in total: 6 seconds with the
    defaults. *)
Theorem retry_calls_and_sleep_bounded :
  forall (A : Type) (f : nat -> outcome A) (max_retries delay : nat) (w : world),
    exists calls,
      calls <= max_retries
      /\ snd (retry_gmail_operation (external f) max_retries delay w) =
         advance calls (backoffs delay 0 (calls - 1)) w
      /\ sum_list (backoffs delay 0 (calls - 1)) + delay
         <= delay * 2 ^ (max_retries - 1).
Proof.
  intros A f max_retries delay w.
  destruct (retry_loop_bounded f max_retries delay max_retries 0 w)
    as (calls & Hle & _ & Hw); [lia|].
  exists calls. split; [done|]. split; [exact Hw|].
  pose proof (sum_backoffs delay 0 (calls - 1)) as Hsum. simpl in Hsum.
  rewrite Nat.mul_1_r in Hsum. rewrite Hsum.
  apply Nat.mul_le_mono_l, Nat.pow_le_mono_r; lia.
Qed.

(** ** Header parsing and reply subjects *)

Lemma app_cons c a b : String c a +:+ b = String c (a +:+ b).
Proof. reflexivity. Qed.

Lemma app_empty b : EmptyString +:+ b = b.
Proof. reflexivity. Qed.

Lemma length_append a b :
  String.length (a +:+ b) = String.length a + String.length b.
Proof.
  induction a as [|c a IH]; [done|].
  rewrite app_cons. simpl. by rewrite IH.
Qed.

Lemma lacks_cons c a r :
  lacks c (String a r) <-> Ascii.eqb a c = false /\ lacks c r.
Proof. unfold lacks. simpl. apply orb_false_iff. Qed.

Lemma has_char_app c a b : PyStr.has_char c (a +:+ String c b) = true.
Proof.
  induction a as [|x a IH]; rewrite ?app_cons, ?app_empty; simpl.
  - by rewrite Ascii.eqb_refl.
  - rewrite IH. apply orb_true_r.
Qed.

Lemma before_first_app c a b :
  lacks c a ->
  PyStr.before_first c (a +:+ b) = a +:+ PyStr.before_first c b.
Proof.
  induction a as [|x a IH]; intros Hlacks; [done|].
  apply lacks_cons in Hlacks as [Hx Ha].
  rewrite !app_cons. simpl. rewrite Hx. by rewrite IH.
Qed.

Lemma before_first_stop c a b :
  lacks c a -> PyStr.before_first c (a +:+ String c b) = a.
Proof.
  intros Hlacks. rewrite before_first_app by done. simpl.
  rewrite Ascii.eqb_refl. clear Hlacks.
  induction a as [|x a IH]; [done|]. rewrite app_cons. by rewrite IH.
Qed.

Lemma before_first_lacks c a : lacks c a -> PyStr.before_first c a = a.
Proof.
  induction a as [|x a IH]; intros Hlacks; [done|].
  apply lacks_cons in Hlacks as [Hx Ha]. simpl. rewrite Hx. by rewrite IH.
Qed.

Lemma after_first_app c a b :
  lacks c a -> PyStr.after_first c (a +:+ String c b) = b.
Proof.
  induction a as [|x a IH]; intros Hlacks.
  - rewrite app_empty. simpl. by rewrite Ascii.eqb_refl.
  - apply lacks_cons in Hlacks as [Hx Ha].
    rewrite app_cons. simpl. rewrite Hx. by apply IH.
Qed.

(** X3. The address is taken from between the first ["<"] and the [">"] that
    follows it: for a header [name<addr>rest] where [name] has no ["<"] and
    [addr] has neither bracket, [extract_address] returns [addr], whatever
    [rest] is.  A header that lacks either bracket is returned whole. *)
Theorem extract_address_between_brackets :
  forall name addr rest v,
    (lacks "<" name -> lacks "<" addr -> lacks ">" addr ->
     extract_address (name +:+ String "<" (addr +:+ String ">" rest)) = addr)
    /\ (lacks "<" v \/ lacks ">" v -> extract_address v = v).
Proof.
  intros name addr rest v. split.
  - intros Hname Hopen Hclose. unfold extract_address.
    rewrite has_char_app.
    replace (PyStr.has_char ">" (name +:+ String "<" (addr +:+ String ">" rest)))
      with true.
    2:{ symmetry. clear. induction name as [|x name IH];
          rewrite ?app_cons, ?app_empty; simpl.
        - by rewrite has_char_app.
        - rewrite IH. apply orb_true_r. }
    cbn [andb]. rewrite after_first_app by done.
    rewrite before_first_app by done.
    change (PyStr.before_first "<" (String ">" rest))
      with (String ">" (PyStr.before_first "<" rest)).
    by rewrite before_first_stop.
  - intros Hlacks. unfold extract_address, lacks in *.
    by destruct Hlacks as [-> | ->]; rewrite ?andb_false_r.
Qed.

Lemma extract_address_between_brackets_witness :
  extract_address "Jon Li <jonathanmingli@gmail.com>" = "jonathanmingli@gmail.com"
  /\ extract_address "jonathanmingli@gmail.com" = "jonathanmingli@gmail.com".
Proof.
  pose proof (extract_address_between_brackets "Jon Li "
                "jonathanmingli@gmail.com" EmptyString
                "jonathanmingli@gmail.com") as [Hin Hout].
  split.
  - apply Hin; reflexivity.
  - apply Hout. left. reflexivity.
Defined.

Lemma upper_starts_with_re x :
  PyStr.startswith "Re:" x = true -> PyStr.upper x <> "CLAUDE".
Proof.
  destruct x as [|c x]; [done|]. intros Hre Hup.
  cbn [PyStr.startswith] in Hre.
  destruct (Ascii.eqb_spec "R" c) as [<-|]; [|done].
  unfold PyStr.upper in Hup. cbn [PyStr.smap] in Hup.
  injection Hup as Hc _. vm_compute in Hc. discriminate.
Qed.

(** X4. The subject [send_reply_email] puts on a reply always starts with
    ["Re:"], is left alone when it already does (so replying to a reply does
    not stack prefixes), and never meets the subject criterion of
    [check_criteria]: whatever the original subject, sender and recipient, a
    reply's subject is not eligible. *)
Theorem reply_subject_is_never_eligible :
  forall subject sender recipient,
    PyStr.startswith "Re:" (reply_subject_for subject) = true
    /\ reply_subject_for (reply_subject_for subject) = reply_subject_for subject
    /\ fst (check_criteria sender recipient (reply_subject_for subject)) = false.
Proof.
  intros subject sender recipient.
  assert (PyStr.startswith "Re:" (reply_subject_for subject) = true) as Hre.
  { unfold reply_subject_for.
    destruct (PyStr.startswith "Re:" subject) eqn:E; [done | reflexivity]. }
  split; [done|]. split.
  - unfold reply_subject_for at 1. by rewrite Hre.
  - destruct (fst (check_criteria _ _ _)) eqn:E; [|done].
    apply check_criteria_true in E as (_ & _ & Hsubj).
    by apply upper_starts_with_re in Hre.
Qed.

(** X5. The command-line [process] check accepts exactly the sender,
    recipient and subject that the handler's [is_valid_claude_email] accepts
    once it has fetched them. *)
Theorem cli_check_agrees_with_handler :
  forall sender recipient subject,
    cli_valid sender recipient subject =
    fst (check_criteria sender recipient subject).
Proof.
  intros sender recipient subject. unfold cli_valid, check_criteria.
  destruct (PyStr.eqb (PyStr.lower sender) _); [|done].
  destruct (PyStr.eqb (PyStr.lower recipient) _); [|done].
  by destruct (PyStr.eqb (PyStr.upper subject) _).
Qed.

(** ** Base64 padding *)

Lemma length_replicate_char n c : String.length (replicate_char n c) = n.
Proof. induction n as [|n IH]; simpl; [done | by rewrite IH]. Qed.

(** X6. The padding fix of [decode_notification_data] leaves a payload
    whose length is a multiple of 4 untouched and otherwise appends between
    one and three ["="] characters, so that the padded length is always a
    multiple of 4. *)
Theorem fix_padding_completes_quantum :
  forall data,
    String.length (fix_padding data) `mod` 4 = 0
    /\ (String.length data `mod` 4 = 0 -> fix_padding data = data)
    /\ exists n, n <= 3
         /\ fix_padding data = data +:+ replicate_char n "="
         /\ (String.length data `mod` 4 <> 0 -> 1 <= n).
Proof.
  intros data. unfold fix_padding.
  pose proof (Nat.mod_upper_bound (String.length data) 4) as Hlt.
  pose proof (Nat.div_mod_eq (String.length data) 4) as Hdiv.
  destruct (Nat.eqb_spec (String.length data `mod` 4) 0) as [Hz|Hnz].
  - split; [done|]. split; [done|]. exists 0. split; [lia|].
    split; [|done]. clear. induction data as [|c d IH]; [done|].
    rewrite app_cons. by rewrite <- IH.
  - split; [|split; [done|]].
    + rewrite length_append, length_replicate_char.
      replace (String.length data + (4 - String.length data `mod` 4))
        with (4 * (S (String.length data `div` 4))) by lia.
      by rewrite Nat.mul_comm, Nat.Div0.mod_mul.
    + exists (4 - String.length data `mod` 4). repeat split; lia.
Qed.

Lemma fix_padding_completes_quantum_witness :
  fix_padding "eyJhIjoxfQ==" = "eyJhIjoxfQ=="
  /\ fix_padding "eyJhIjoxfQ" = "eyJhIjoxfQ==".
Proof.
  pose proof (fix_padding_completes_quantum "eyJhIjoxfQ==") as (_ & Hkeep & _).
  split; [by apply Hkeep|]. reflexivity.
Defined.

(** ** Which errors are retried *)

Lemma retry_loop_always_transient {A} (operation : M A) max_retries delay
    remaining :
  (forall w, exists e,
     operation w = (Raised e, bump w) /\ is_transient e = true) ->
  forall attempt w,
    attempt + remaining = max_retries ->
    retry_loop operation max_retries delay remaining attempt w =
      (Returned None,
       advance remaining (backoffs delay attempt (remaining - 1)) w).
Proof.
  intros Hop. induction remaining as [|r IH]; intros attempt w Hsum.
  - simpl. unfold ret, advance. destruct w; simpl. do 2 f_equal. lia.
  - destruct (Hop w) as (e & Hrun & He).
    cbn [retry_loop]. unfold try_except at 1, bind at 1.
    rewrite Hrun, He.
    destruct (Nat.eqb_spec attempt (max_retries - 1)) as [Hlast|Hmore].
    + assert (r = 0) by lia. subst r. unfold ret. by rewrite advance_bump.
    + destruct r as [|r']; [lia|].
      unfold bind at 1, sleep, modify.
      rewrite IH by lia.
      rewrite advance_bump_sleep.
      replace (S (S r') - 1) with (S (S r' - 1)) by lia.
      by rewrite backoffs_cons.
Qed.

Lemma advance_advance n s m t w :
  advance n s (advance m t w) = advance (m + n) (s ++ t) w.
Proof.
  unfold advance. simpl. f_equal; [lia | by rewrite app_assoc].
Qed.

Lemma get_message_raises out id w e :
  api_get_message out (tick w) id = Raised e ->
  get_message out id w = (Raised e, bump w).
Proof. intros He. unfold get_message, external. by rewrite He. Qed.

Lemma header_fetch_unavailable out id c
    (get : outside -> string -> M string) :
  (forall w e, api_get_message out (tick w) id = Raised e ->
               get out id w = (Raised e, bump w)) ->
  fetch_fails out id c ->
  (forall e, exn_cls e = c -> is_transient e = true) ->
  forall w, retry (get out id) w = (Returned None, advance 3 [4; 2] w).
Proof.
  intros Hget Hfail Hc w. unfold retry, retry_gmail_operation.
  rewrite retry_loop_always_transient; [done| |done].
  intros w0. destruct (Hfail (tick w0)) as (e & He & Hcls).
  exists e. split; [by apply Hget | by apply Hc].
Qed.

Lemma get_sender_email_raises out id w e :
  api_get_message out (tick w) id = Raised e ->
  get_sender_email out id w = (Raised e, bump w).
Proof.
  intros He. unfold get_sender_email, bind.
  by rewrite (get_message_raises _ _ _ _ He).
Qed.

Lemma get_recipient_email_raises out id w e :
  api_get_message out (tick w) id = Raised e ->
  get_recipient_email out id w = (Raised e, bump w).
Proof.
  intros He. unfold get_recipient_email, bind.
  by rewrite (get_message_raises _ _ _ _ He).
Qed.

Lemma get_subject_raises out id w e :
  api_get_message out (tick w) id = Raised e ->
  get_subject out id w = (Raised e, bump w).
Proof.
  intros He. unfold get_subject, bind.
  by rewrite (get_message_raises _ _ _ _ He).
Qed.

Lemma http_is_transient e : exn_cls e = HttpError -> is_transient e = true.
Proof. unfold is_transient. by intros ->. Qed.

(** X7. An HTTP error of the mail API is retried for some lookups and not
    for others.  When every fetch of a message fails with [HttpError]: the
    timestamp lookup makes one call and reports 0, which the staleness test
    lets through; the thread-id lookup makes one call and reports the empty
    id; the sender lookup is retried three times, with sleeps of 2 and 4, and
    is unavailable.  A candidate not yet processed is then rejected by the
    eligibility check, after ten calls in all, and nothing but the clock has
    changed. *)
Theorem http_errors_and_retries :
  forall out server_start_time message_id w,
    fetch_fails out message_id HttpError ->
    retry (get_message_timestamp out message_id) w =
      (Returned (Some (Qc_of_Z 0)), advance 1 [] w)
    /\ is_stale server_start_time (Some (Qc_of_Z 0)) = false
    /\ retry (get_thread_id out message_id) w =
         (Returned (Some EmptyString), advance 1 [] w)
    /\ retry (get_sender_email out message_id) w =
         (Returned None, advance 3 [4; 2] w)
    /\ (message_id ∉ processed_messages w ->
        process_message out server_start_time message_id w =
          (Returned
             (NotValid "Failed to retrieve email details due to network errors"),
           advance 10 [4; 2; 4; 2; 4; 2] w)).
Proof.
  intros out sst id w Hfail.
  assert (forall w0,
            retry (get_message_timestamp out id) w0 =
              (Returned (Some (Qc_of_Z 0)), advance 1 [] w0)) as Hts.
  { intros w0. destruct (Hfail (tick w0)) as (e & He & Hcls).
    rewrite <- advance_bump. apply retry_first_try.
    unfold get_message_timestamp, try_except, bind.
    by rewrite (get_message_raises _ _ _ _ He), Hcls. }
  split; [apply Hts|]. split; [done|]. split.
  { destruct (Hfail (tick w)) as (e & He & Hcls).
    rewrite <- advance_bump. apply retry_first_try.
    unfold get_thread_id, try_except, bind.
    by rewrite (get_message_raises _ _ _ _ He), Hcls. }
  pose proof (header_fetch_unavailable out id HttpError get_sender_email
                (get_sender_email_raises out id) Hfail http_is_transient) as Hs.
  pose proof (header_fetch_unavailable out id HttpError get_recipient_email
                (get_recipient_email_raises out id) Hfail http_is_transient) as Hr.
  pose proof (header_fetch_unavailable out id HttpError get_subject
                (get_subject_raises out id) Hfail http_is_transient) as Hj.
  split; [apply Hs|].
  intros Hnew.
  unfold process_message, bind at 1, is_processed, bind at 1, get_world, ret at 1.
  simpl. rewrite bool_decide_eq_false_2 by done.
  unfold bind at 1, gates, bind at 1. rewrite Hts.
  cbn [is_stale]. rewrite bool_decide_eq_true_2 by done. cbn [negb andb].
  unfold bind at 1, is_valid_claude_email, try_except, bind.
  rewrite Hs, Hr, Hj. unfold ret. simpl.
  f_equal. by rewrite !advance_advance.
Qed.

Lemma http_errors_and_retries_witness :
  process_message unavailable_out demo_start "m1" idle_world =
    (Returned
       (NotValid "Failed to retrieve email details due to network errors"),
     advance 10 [4; 2; 4; 2; 4; 2] idle_world).
Proof.
  apply (http_errors_and_retries unavailable_out demo_start "m1" idle_world).
  - intros t. eexists. split; reflexivity.
  - apply (bool_decide_eq_false_1 _). by vm_compute.
Defined.

Lemma send_reply_email_raises out thread sender subject body w e :
  api_send out (tick w)
    (Reply thread sender (reply_subject_for subject) body) = Raised e ->
  send_reply_email out thread sender subject body w =
    (match exn_cls e with
     | HttpError => Returned None
     | _ => Raised e
     end,
     with_outbox (Reply thread sender (reply_subject_for subject) body) (bump w)).
Proof.
  intros He. unfold send_reply_email, try_except, post. rewrite He.
  by destruct (exn_cls e).
Qed.

(** X8. A failing send is attempted once or three times and records no id.
    When the mail API answers every send with [HttpError], the reply is
    handed over once and [send_and_track] returns normally.  When it fails
    with another transient error (TLS, connection, OS), the same reply is
    handed over three times, with sleeps of 2 and 4 in between, and
    [send_and_track] returns normally.  When the send fails with an
    exception of any other class, the reply has been handed over once and
    the exception is raised out of [send_and_track]. *)
Theorem send_attempts_on_failure :
  forall out thread sender subject body w,
    let r := Reply thread sender (reply_subject_for subject) body in
    ((forall t, exists e, api_send out t r = Raised e /\ exn_cls e = HttpError) ->
       send_and_track out thread sender subject body w =
         (Returned tt, with_outbox r (bump w)))
    /\
    ((forall t, exists e,
        api_send out t r = Raised e /\ is_transient e = true
        /\ exn_cls e <> HttpError) ->
       send_and_track out thread sender subject body w =
         (Returned tt,
          World (tick w + 3) ([4; 2] ++ slept w)%list (processed_messages w)
            (processed_history_ids w) (sent_message_ids w)
            (last_cleanup_time w) (r :: r :: r :: outbox w) (agent_calls w)))
    /\
    (forall e,
       api_send out (tick w) r = Raised e ->
       is_transient e = false ->
       send_and_track out thread sender subject body w =
         (Raised e, with_outbox r (bump w))).
Proof.
  intros out thread sender subject body w r. subst r. split; [|split].
  3:{ intros e He Hfatal.
      unfold send_and_track, bind at 1, retry, retry_gmail_operation.
      cbn [retry_loop]. unfold try_except at 1, bind at 1.
      rewrite (send_reply_email_raises _ _ _ _ _ _ _ He).
      assert (exn_cls e <> HttpError) as Hcls
        by (intros Hc; unfold is_transient in Hfatal; by rewrite Hc in Hfatal).
      destruct (exn_cls e) eqn:Ecls; try done.
      all: unfold raise; by rewrite Hfatal. }
  - intros Hfail. destruct (Hfail (tick w)) as (e & He & Hcls).
    unfold send_and_track, bind.
    rewrite (retry_first_try _ w None
               (with_outbox (Reply thread sender (reply_subject_for subject) body)
                  (bump w))); [done|].
    rewrite (send_reply_email_raises _ _ _ _ _ _ _ He). by rewrite Hcls.
  - intros Hfail.
    assert (forall w0, exists e,
              send_reply_email out thread sender subject body w0 =
                (Raised e,
                 with_outbox (Reply thread sender (reply_subject_for subject) body)
                   (bump w0))
              /\ is_transient e = true) as Hstep.
    { intros w0. destruct (Hfail (tick w0)) as (e & He & Ht & Hcls).
      exists e. split; [|done].
      rewrite (send_reply_email_raises _ _ _ _ _ _ _ He).
      by destruct (exn_cls e). }
    unfold send_and_track, bind at 1, retry, retry_gmail_operation.
    cbn [retry_loop].
    destruct (Hstep w) as (e1 & H1 & T1).
    unfold try_except at 1, bind at 1. rewrite H1, T1. cbn [Nat.eqb Nat.sub].
    unfold bind at 1, sleep, modify.
    destruct (Hstep (with_slept (2 * 2 ^ 0)
                       (with_outbox
                          (Reply thread sender (reply_subject_for subject) body)
                          (bump w)))) as (e2 & H2 & T2).
    unfold try_except at 1, bind at 1. rewrite H2, T2. cbn [Nat.eqb Nat.sub].
    unfold bind at 1, sleep, modify.
    match goal with
    | |- context [try_except _ _ ?w3] =>
        destruct (Hstep w3) as (e3 & H3 & T3)
    end.
    unfold try_except at 1, bind at 1. rewrite H3, T3. cbn [Nat.eqb Nat.sub].
    unfold ret. f_equal. unfold with_outbox, with_slept, bump. simpl.
    f_equal. lia.
Qed.

Lemma send_attempts_on_failure_witness :
  outbox (snd (send_and_track forbidden_send_out "t1" "a@x.com" "CLAUDE" "ack"
                 idle_world)) =
    [Reply "t1" "a@x.com" "Re: CLAUDE" "ack"]
  /\ outbox (snd (send_and_track broken_send_out "t1" "a@x.com" "CLAUDE" "ack"
                    idle_world)) =
    [Reply "t1" "a@x.com" "Re: CLAUDE" "ack";
     Reply "t1" "a@x.com" "Re: CLAUDE" "ack";
     Reply "t1" "a@x.com" "Re: CLAUDE" "ack"]
  /\ send_and_track crashing_send_out "t1" "a@x.com" "CLAUDE" "ack" idle_world =
       (Raised (Exn OtherException "TypeError: not JSON serializable"),
        with_outbox (Reply "t1" "a@x.com" "Re: CLAUDE" "ack") (bump idle_world)).
Proof.
  split; [|split].
  - rewrite (proj1 (send_attempts_on_failure forbidden_send_out "t1" "a@x.com"
                      "CLAUDE" "ack" idle_world)); [done|].
    intros t. eexists. split; reflexivity.
  - rewrite (proj1 (proj2 (send_attempts_on_failure broken_send_out "t1"
                             "a@x.com" "CLAUDE" "ack" idle_world))); [done|].
    intros t. eexists. split; [reflexivity|]. split; [reflexivity|done].
  - apply (proj2 (proj2 (send_attempts_on_failure crashing_send_out "t1"
                           "a@x.com" "CLAUDE" "ack" idle_world)));
      reflexivity.
Defined.

(** ** The eligibility check as a whole *)

Lemma returns_header out id (get : outside -> string -> M string)
    (of_message : message -> string) :
  (forall w, get out id w =
             (let* m := get_message out id in ret (of_message m)) w) ->
  returns (get out id)
          (fun v => exists m, fetched out id m /\ v = of_message m).
Proof.
  intros Hget w v w' Hrun. rewrite Hget in Hrun.
  unfold bind, get_message, external, ret in Hrun.
  destruct (api_get_message out (tick w) id) as [m|e] eqn:Em; [|discriminate].
  injection Hrun as <- <-. exists m. split; [by exists (tick w) | done].
Qed.

Lemma returns_get_sender_email out id :
  returns (get_sender_email out id)
          (fun v => exists m, fetched out id m /\ v = sender_of m).
Proof.
  apply (returns_header out id get_sender_email). intros w.
  unfold get_sender_email, sender_of, bind.
  destruct (get_message out id w) as [[m|e] w1]; [|done].
  by destruct (find_header _ _).
Qed.

Lemma returns_get_recipient_email out id :
  returns (get_recipient_email out id)
          (fun v => exists m, fetched out id m /\ v = recipient_of m).
Proof.
  apply (returns_header out id get_recipient_email). intros w.
  unfold get_recipient_email, recipient_of, bind.
  destruct (get_message out id w) as [[m|e] w1]; [|done].
  by destruct (find_header _ _).
Qed.

Lemma returns_get_subject out id :
  returns (get_subject out id)
          (fun v => exists m, fetched out id m /\ v = subject_of m).
Proof.
  apply (returns_header out id get_subject). intros w.
  unfold get_subject, subject_of, bind.
  destruct (get_message out id w) as [[m|e] w1]; [|done].
  by destruct (find_header _ _).
Qed.

(** X9. [is_valid_claude_email] never raises, whatever the mail API does,
    and changes nothing but the clock.  It answers true only when each of
    sender, recipient and subject was actually fetched and meets its
    criterion: a lookup that is unavailable or fails in any way makes the
    message ineligible. *)
Theorem eligibility_check_fails_closed :
  forall out message_id w,
    exists verdict w',
      is_valid_claude_email out message_id w = (Returned verdict, w')
      /\ same_ledger w w'
      /\ (fst verdict = true ->
          exists ms mr mj,
            fetched out message_id ms /\ fetched out message_id mr
            /\ fetched out message_id mj
            /\ PyStr.lower (sender_of ms) = target_email
            /\ PyStr.lower (recipient_of mr) = target_email
            /\ PyStr.upper (subject_of mj) = required_subject).
Proof.
  intros out id w.
  destruct (is_valid_claude_email out id w) as [r w'] eqn:Erun.
  assert (same_ledger w w') as Hsame.
  { eapply (preserves_is_valid_claude_email out _ (same_ledger_stable w));
      eauto using same_ledger_refl. }
  unfold is_valid_claude_email, try_except in Erun.
  unfold bind at 1 in Erun.
  destruct (retry (get_sender_email out id) w) as [[s|e] w1] eqn:Es.
  2:{ injection Erun as <- <-. eexists _, _. repeat split; try apply Hsame.
      simpl. done. }
  unfold bind at 1 in Erun.
  destruct (retry (get_recipient_email out id) w1) as [[r0|e] w2] eqn:Er.
  2:{ injection Erun as <- <-. eexists _, _. repeat split; try apply Hsame.
      simpl. done. }
  unfold bind at 1 in Erun.
  destruct (retry (get_subject out id) w2) as [[j|e] w3] eqn:Ej.
  2:{ injection Erun as <- <-. eexists _, _. repeat split; try apply Hsame.
      simpl. done. }
  destruct s as [sender|]; [|injection Erun as <- <-; eexists _, _;
                              repeat split; try apply Hsame; simpl; done].
  destruct r0 as [recipient|]; [|injection Erun as <- <-; eexists _, _;
                                  repeat split; try apply Hsame; simpl; done].
  destruct j as [subject|]; [|injection Erun as <- <-; eexists _, _;
                                repeat split; try apply Hsame; simpl; done].
  injection Erun as <- <-. eexists _, _. split; [done|]. split; [done|].
  intros Hok. apply check_criteria_true in Hok as (Hs & Hr & Hj).
  destruct (returns_retry _ _ (returns_get_sender_email out id) _ _ _ Es
              sender eq_refl) as (ms & Hms & ->).
  destruct (returns_retry _ _ (returns_get_recipient_email out id) _ _ _ Er
              recipient eq_refl) as (mr & Hmr & ->).
  destruct (returns_retry _ _ (returns_get_subject out id) _ _ _ Ej
              subject eq_refl) as (mj & Hmj & ->).
  exists ms, mr, mj. done.
Qed.

Lemma eligibility_check_fails_closed_witness :
  exists m, fetched demo_out "m1" m
            /\ PyStr.upper (subject_of m) = required_subject.
Proof.
  destruct (eligibility_check_fails_closed demo_out "m1" idle_world)
    as (verdict & w' & Hrun & _ & Hok).
  vm_compute in Hrun. injection Hrun as <- _.
  destruct (Hok eq_refl) as (_ & _ & mj & _ & _ & Hmj & _ & _ & Hsubj).
  by exists mj.
Defined.

(** ** What one candidate can change *)

Section ReplyStable.

Variable out : outside.
Variable I : world -> Prop.
Hypothesis Ireply : reply_stable I.

Lemma reply_stable_time : time_stable I.
Proof. apply Ireply. Qed.

Lemma keeps_send_reply_email thread to subject body :
  preserves I (send_reply_email out thread to subject body).
Proof.
  unfold send_reply_email. apply preserves_try_except.
  - intros w r w' [= <- <-] Hw.
    apply Ireply. by apply reply_stable_time.
  - intros e. destruct (exn_cls e); preserve.
Qed.

Lemma keeps_send_and_track thread sender subject body :
  preserves I (send_and_track out thread sender subject body).
Proof.
  unfold send_and_track.
  pose proof reply_stable_time.
  pose proof (keeps_send_reply_email thread sender subject body).
  preserve.
  apply preserves_modify. intros w Hw. by apply Ireply.
Qed.

Lemma keeps_progress_callback thread_id sender subject updates text :
  preserves I (progress_callback out thread_id sender subject updates text).
Proof.
  unfold progress_callback. pose proof keeps_send_and_track. preserve; auto.
Qed.

Lemma keeps_stream_progress thread_id sender subject chunks updates :
  preserves I
    (stream (progress_callback out thread_id sender subject) updates chunks).
Proof.
  apply preserves_stream. intros. apply keeps_progress_callback.
Qed.

End ReplyStable.

Lemma leads_bind {A B} P Q (m : M A) (k : A -> M B) :
  leads P m Q -> (forall a, preserves Q (k a)) -> leads P (bind m k) Q.
Proof.
  intros Hm Hk w r w' Hrun Hw. unfold bind in Hrun.
  destruct (m w) as [[a|e] w1] eqn:Em.
  - eapply Hk; [exact Hrun|]. eapply Hm; eauto.
  - injection Hrun as <- <-. eapply Hm; eauto.
Qed.

Lemma leads_try_except {A} P Q (m : M A) (h : exn -> M A) :
  leads P m Q -> (forall e, preserves Q (h e)) -> leads P (try_except m h) Q.
Proof.
  intros Hm Hh w r w' Hrun Hw. unfold try_except in Hrun.
  destruct (m w) as [[a|e] w1] eqn:Em.
  - injection Hrun as <- <-. eapply Hm; eauto.
  - eapply Hh; [exact Hrun|]. eapply Hm; eauto.
Qed.

(** [respond] leaves the processed sets alone and invokes the agent at most
    once, with the content and sender it was given. *)
Lemma respond_effects out id content sender subject w r w' :
  respond out id content sender subject w = (r, w') ->
  processed_messages w' = processed_messages w
  /\ processed_history_ids w' = processed_history_ids w
  /\ (agent_calls w' = agent_calls w
      \/ agent_calls w' = (content, sender) :: agent_calls w).
Proof.
  intros Hrun.
  set (J := fun calls (w0 : world) =>
              processed_messages w0 = processed_messages w
              /\ processed_history_ids w0 = processed_history_ids w
              /\ agent_calls w0 = calls).
  assert (forall calls, reply_stable (J calls)) as HJ.
  { intros calls. split.
    - intros w0 Hw0. split; [|intros d]; exact Hw0.
    - intros w0 Hw0. split; intros ?; exact Hw0. }
  pose proof (fun calls => reply_stable_time _ (HJ calls)) as HJt.
  assert (J (agent_calls w) w) as H0 by done.
  enough (J (agent_calls w) w' \/ J ((content, sender) :: agent_calls w) w')
    as [(? & ? & ?)|(? & ? & ?)] by auto.
  unfold respond in Hrun. unfold bind at 1 in Hrun.
  destruct (retry (get_thread_id out id) w) as [[thread_id|e] w1] eqn:E1.
  2:{ injection Hrun as <- <-. left.
      eapply (preserves_retry _ (HJt _)); [|exact E1|done].
      apply preserves_get_thread_id, HJt. }
  assert (J (agent_calls w) w1) as H1.
  { eapply (preserves_retry _ (HJt _)); [|exact E1|done].
    apply preserves_get_thread_id, HJt. }
  unfold bind at 1 in Hrun.
  match type of Hrun with
  | context [?ack w1] =>
      match ack with
      | (if _ then _ else _) =>
          assert (preserves (J (agent_calls w)) ack) as Hack
            by (destruct (truthy_str thread_id);
                [apply keeps_send_and_track, HJ | apply preserves_ret]);
          destruct (ack w1) as [[[]|e] w2] eqn:E2
      end
  end.
  2:{ injection Hrun as <- <-. left. eapply Hack; eauto. }
  assert (J (agent_calls w) w2) as H2 by (eapply Hack; eauto).
  right. revert Hrun H2.
  match goal with
  | |- ?m w2 = _ -> _ -> _ =>
      enough (leads (J (agent_calls w)) m
                (J ((content, sender) :: agent_calls w))) as Htail
        by (intros Hrun H2; eapply Htail; eauto)
  end.
  pose proof (keeps_send_and_track out _ (HJ ((content, sender) :: agent_calls w)))
    as Hsend.
  apply leads_try_except.
  - apply leads_bind.
    + unfold process_email_request_streaming.
      apply leads_try_except.
      * apply leads_bind.
        { intros w3 r3 w4 [= <- <-] (? & ? & Hc).
          repeat split; try done. simpl. by rewrite Hc. }
        intros script. apply preserves_bind.
        { apply keeps_stream_progress, HJ. }
        intros _. destruct (agent_failure script); [apply preserves_raise|].
        destruct (agent_chunks script); apply preserves_ret.
      * intros e. apply preserves_raise.
    + intros response.
      destruct (truthy_str thread_id && negb (PyStr.is_empty response));
        [apply Hsend | apply preserves_ret].
  - intros e. destruct (truthy_str thread_id);
      [apply Hsend | apply preserves_ret].
Qed.

(** X10. One pass over a candidate changes the ledger in one way only.  The
    processed set can gain the candidate's id and nothing else; the agent is
    invoked at most once, and only for a candidate that was not in the
    processed set before and is in it afterwards; a candidate that was skipped
    (any verdict but [Handled]) leaves the sets, the replies and the agent
    calls exactly as they were, so that a later notification examines it
    again. *)
Theorem candidate_effects :
  forall out server_start_time message_id w r w',
    process_message out server_start_time message_id w = (r, w') ->
    processed_messages w ⊆ processed_messages w'
    /\ processed_messages w' ⊆ ({[ message_id ]} ∪ processed_messages w)
    /\ (agent_calls w' = agent_calls w
        \/ (exists content sender,
              agent_calls w' = (content, sender) :: agent_calls w
              /\ (message_id ∉ processed_messages w)
              /\ message_id ∈ processed_messages w'))
    /\ (forall v, r = Returned v -> v <> Handled -> same_ledger w w').
Proof.
  intros out sst id w r w' Hrun.
  unfold process_message, bind at 1, is_processed, bind at 1, get_world, ret at 1
    in Hrun.
  simpl in Hrun.
  assert (forall w0, same_ledger w w0 ->
            processed_messages w ⊆ processed_messages w0
            /\ processed_messages w0 ⊆ ({[ id ]} ∪ processed_messages w)
            /\ (agent_calls w0 = agent_calls w
                \/ (exists content sender,
                      agent_calls w0 = (content, sender) :: agent_calls w
                      /\ (id ∉ processed_messages w)
                      /\ id ∈ processed_messages w0))
            /\ (forall v : verdict, r = Returned v -> v <> Handled ->
                 same_ledger w w0)) as Hquiet.
  { intros w0 Hsame. pose proof Hsame as (Hp & _ & _ & _ & _ & Ha).
    rewrite Hp. split; [done|]. split; [apply union_subseteq_r|].
    split; [by left|done]. }
  case_bool_decide as Hseen.
  { injection Hrun as <- <-. apply Hquiet, same_ledger_refl. }
  unfold bind at 1 in Hrun.
  destruct (gates out sst id w) as [[g|e] w1] eqn:Eg.
  2:{ injection Hrun as <- <-. apply Hquiet. by eapply gates_quiet. }
  pose proof (gates_quiet _ _ _ _ _ _ Eg) as Hq.
  destruct g as [v|[[content sender] subject]].
  { injection Hrun as <- <-. by apply Hquiet. }
  clear Hquiet.
  unfold bind at 1, mark_processed, modify in Hrun. simpl in Hrun.
  unfold bind in Hrun.
  destruct (respond out id content sender subject _) as [[[]|e] w2] eqn:Er;
    injection Hrun as <- <-;
    destruct (respond_effects _ _ _ _ _ _ _ _ Er) as (Hp2 & _ & Hcalls);
    simpl in Hp2, Hcalls;
    destruct Hq as (Hp & _ & _ & _ & _ & Ha);
    rewrite Hp2, Hp; rewrite Ha in Hcalls.
  all: split; [apply union_subseteq_r|]; split; [done|]; split;
    [|intros v [= <-]; done].
  all: destruct Hcalls as [Hc|Hc]; [by left|right].
  all: exists content, sender; repeat split; try done.
  all: apply elem_of_union_l; by apply elem_of_singleton.
Qed.

Lemma candidate_effects_witness :
  processed_messages
    (snd (process_message demo_out demo_start "m1" idle_world))
    ⊆ {[ "m1" ]} ∪ processed_messages idle_world.
Proof.
  destruct (process_message demo_out demo_start "m1" idle_world)
    as [r w'] eqn:Erun.
  apply (candidate_effects demo_out demo_start "m1" idle_world r w' Erun).
Defined.

(** ** The candidate loop *)

#[local] Set Warnings "-clear-no-such-hyp".

Lemma size_grows_with_new (P P1 : gset string) id :
  P ⊆ P1 -> id ∉ P -> id ∈ P1 -> S (size P) <= size P1.
Proof.
  intros Hsub Hnew Hin.
  assert (size ({[ id ]} ∪ P) = S (size P)) as <-.
  { rewrite size_union by set_solver. by rewrite size_singleton. }
  apply subseteq_size. set_solver.
Qed.

Lemma loop_effects out sst ids : forall w r w',
  for_each ids (fun id => process_message out sst id ;; ret tt) w = (r, w') ->
  processed_messages w ⊆ processed_messages w'
  /\ processed_messages w' ⊆ list_to_set ids ∪ processed_messages w
  /\ List.length (agent_calls w') + size (processed_messages w)
     <= List.length (agent_calls w) + size (processed_messages w').
Proof.
  induction ids as [|id ids IH]; intros w r w' Hrun.
  - injection Hrun as <- <-. repeat split; [done|set_solver|lia].
  - cbn [for_each] in Hrun. unfold bind at 1 in Hrun. unfold bind at 1 in Hrun.
    destruct (process_message out sst id w) as [[v|e] w1] eqn:Estep;
      pose proof (candidate_effects _ _ _ _ _ _ Estep)
        as (Hsub & Hsup & Hcalls & _).
    + cbn [ret] in Hrun.
      destruct (IH _ _ _ Hrun) as (Hsub' & Hsup' & Hcount).
      split; [set_solver|]. split; [set_solver|].
      destruct Hcalls as [Hc|(c & s & Hc & Hnew & Hin)]; rewrite Hc in Hcount.
      * pose proof (subseteq_size _ _ Hsub). lia.
      * pose proof (size_grows_with_new _ _ _ Hsub Hnew Hin).
        simpl in Hcount. lia.
    + injection Hrun as <- <-.
      split; [done|]. split; [set_solver|].
      destruct Hcalls as [Hc|(c & s & Hc & Hnew & Hin)]; rewrite Hc.
      * pose proof (subseteq_size _ _ Hsub). lia.
      * pose proof (size_grows_with_new _ _ _ Hsub Hnew Hin). simpl. lia.
Qed.

(** X11. Within one notification the agent is invoked at most once per
    message id.  Running the candidate loop over any list of ids, with
    repetitions or not, the processed set only grows, and only by ids of the
    list; every agent invocation is matched by an id newly added to it; so the
    loop makes no more agent invocations than the list has distinct ids that
    were not processed before. *)
Theorem loop_invokes_agent_once_per_new_id :
  forall out server_start_time ids w r w',
    for_each ids
      (fun message_id =>
         process_message out server_start_time message_id ;; ret tt) w
      = (r, w') ->
    processed_messages w ⊆ processed_messages w'
    /\ processed_messages w' ⊆ list_to_set ids ∪ processed_messages w
    /\ List.length (agent_calls w')
       <= List.length (agent_calls w)
          + size (list_to_set ids ∖ processed_messages w : gset string).
Proof.
  intros out sst ids w r w' Hrun.
  destruct (loop_effects _ _ _ _ _ _ Hrun) as (Hsub & Hsup & Hcount).
  split; [done|]. split; [done|].
  assert (size (processed_messages w' ∖ processed_messages w)
          <= size (list_to_set ids ∖ processed_messages w : gset string)) as Hle
    by (apply subseteq_size; set_solver).
  rewrite size_difference in Hle by done.
  pose proof (subseteq_size _ _ Hsub). lia.
Qed.

Lemma loop_invokes_agent_once_per_new_id_witness :
  List.length
    (agent_calls
       (snd (for_each ["m1"; "m1"; "m1"]
               (fun message_id =>
                  process_message demo_out demo_start message_id ;; ret tt)
               idle_world))) <= 1.
Proof.
  destruct (for_each ["m1"; "m1"; "m1"] _ idle_world) as [r w'] eqn:Erun.
  destruct (loop_invokes_agent_once_per_new_id demo_out demo_start
              ["m1"; "m1"; "m1"] idle_world r w' Erun) as (_ & _ & Hle).
  simpl. replace (size _) with 1 in Hle by (by vm_compute). exact Hle.
Defined.

(** ** Trimming, case and the system patterns *)

Lemma is_space_lower c : PyStr.is_space (PyStr.lower_char c) = PyStr.is_space c.
Proof. destruct c as [[] [] [] [] [] [] [] []]; reflexivity. Qed.

Lemma is_empty_lower s : PyStr.is_empty (PyStr.lower s) = PyStr.is_empty s.
Proof. by destruct s. Qed.

Lemma lstrip_lower s : PyStr.lstrip (PyStr.lower s) = PyStr.lower (PyStr.lstrip s).
Proof.
  unfold PyStr.lower. induction s as [|c s IH]; [done|].
  cbn [PyStr.smap PyStr.lstrip]. rewrite is_space_lower.
  by destruct (PyStr.is_space c).
Qed.

Lemma rstrip_lower s : PyStr.rstrip (PyStr.lower s) = PyStr.lower (PyStr.rstrip s).
Proof.
  induction s as [|c s IH]; [done|].
  change (PyStr.lower (String c s))
    with (String (PyStr.lower_char c) (PyStr.lower s)).
  cbn [PyStr.rstrip]. rewrite IH, is_space_lower, is_empty_lower.
  by destruct (PyStr.is_space c && PyStr.is_empty (PyStr.rstrip s)).
Qed.

Lemma strip_lower s : PyStr.strip (PyStr.lower s) = PyStr.lower (PyStr.strip s).
Proof. unfold PyStr.strip. by rewrite rstrip_lower, lstrip_lower. Qed.

Lemma blank_is_system_generated sent content sender id :
  PyStr.is_empty (PyStr.strip content) = true ->
  fst (system_generated sent content sender id) = true.
Proof.
  intros Hblank. apply system_generated_true_iff. right. right.
  rewrite strip_lower. destruct (PyStr.strip content); [|done].
  simpl. lia.
Qed.

Lemma startswith_nonempty p : PyStr.startswith p EmptyString = PyStr.is_empty p.
Proof. by destruct p. Qed.

Lemma contains_empty p : PyStr.contains p EmptyString = PyStr.is_empty p.
Proof. simpl. rewrite startswith_nonempty. apply orb_false_r. Qed.

Lemma solid_end_nonempty p : solid_end p = true -> PyStr.is_empty p = false.
Proof. by destruct p. Qed.

Lemma contains_cons p c r :
  PyStr.contains p (String c r) =
  PyStr.startswith p (String c r) || PyStr.contains p r.
Proof. reflexivity. Qed.

Lemma startswith_contains p s :
  PyStr.startswith p s = true -> PyStr.contains p s = true.
Proof. intros H. destruct s; simpl; by rewrite H. Qed.

Lemma contains_lstrip p s :
  solid_start p = true ->
  PyStr.contains p s = true -> PyStr.contains p (PyStr.lstrip s) = true.
Proof.
  intros Hp. induction s as [|c r IH]; [done|].
  cbn [PyStr.lstrip]. destruct (PyStr.is_space c) eqn:Hc; [|done].
  rewrite contains_cons. intros [Hhead|Htail]%orb_true_iff; [|auto].
  destruct p as [|a p']; [done|]. simpl in Hp, Hhead.
  destruct (Ascii.eqb_spec a c) as [->|]; [|done].
  by rewrite Hc in Hp.
Qed.

Lemma startswith_rstrip p : forall s,
  solid_end p = true ->
  PyStr.startswith p s = true -> PyStr.startswith p (PyStr.rstrip s) = true.
Proof.
  induction p as [|a p' IH]; [done|]. intros s Hp Hs.
  destruct s as [|b s']; [done|]. cbn [PyStr.startswith] in Hs.
  destruct (Ascii.eqb_spec a b) as [<-|]; [|done].
  destruct p' as [|a' p''].
  - simpl in Hp. apply negb_true_iff in Hp.
    cbn [PyStr.rstrip]. rewrite Hp. simpl. by rewrite Ascii.eqb_refl.
  - specialize (IH s' Hp Hs).
    cbn [PyStr.rstrip].
    destruct (PyStr.rstrip s') as [|x y] eqn:Er; [done|].
    rewrite andb_false_r. cbn [PyStr.startswith].
    by rewrite Ascii.eqb_refl.
Qed.

Lemma contains_rstrip p s :
  solid_end p = true ->
  PyStr.contains p s = true -> PyStr.contains p (PyStr.rstrip s) = true.
Proof.
  intros Hp. pose proof (solid_end_nonempty _ Hp) as Hne.
  induction s as [|c r IH].
  - by rewrite contains_empty, Hne.
  - rewrite contains_cons. intros [Hhead|Htail]%orb_true_iff.
    + by apply startswith_contains, startswith_rstrip.
    + specialize (IH Htail). cbn [PyStr.rstrip].
      destruct (PyStr.rstrip r) as [|x y] eqn:Er.
      * by rewrite contains_empty, Hne in IH.
      * rewrite andb_false_r, contains_cons, IH. apply orb_true_r.
Qed.

Lemma contains_strip p s :
  solid_start p = true -> solid_end p = true ->
  PyStr.contains p s = true -> PyStr.contains p (PyStr.strip s) = true.
Proof.
  intros Hstart Hend Hs. unfold PyStr.strip.
  by apply contains_lstrip, contains_rstrip.
Qed.

Lemma system_patterns_solid pattern :
  pattern ∈ system_patterns ->
  solid_start (PyStr.lower pattern) = true
  /\ solid_end (PyStr.lower pattern) = true.
Proof.
  unfold system_patterns. rewrite !elem_of_cons, elem_of_nil.
  intros [->|[->|[->|[->|[->|[->|[]]]]]]]; by vm_compute.
Qed.

(** X12. A body that contains one of the six system patterns anywhere, in
    any letter case, is classified system-generated: the letters "ack" inside
    "package" or "Feedback" are enough.  A candidate every copy of whose body
    contains such a pattern is never handled, and leaves no trace. *)
Theorem pattern_anywhere_blocks_message :
  forall out server_start_time message_id,
    (forall sent content sender pattern,
       pattern ∈ system_patterns ->
       PyStr.contains (PyStr.lower pattern) (PyStr.lower content) = true ->
       fst (system_generated sent content sender message_id) = true)
    /\
    (forall w r w',
       (forall m, fetched out message_id m ->
          exists pattern,
            pattern ∈ system_patterns
            /\ PyStr.contains (PyStr.lower pattern)
                 (PyStr.lower (body_of m)) = true) ->
       process_message out server_start_time message_id w = (r, w') ->
       r <> Returned Handled /\ same_ledger w w').
Proof.
  intros out sst id.
  assert (forall sent content sender pattern,
            pattern ∈ system_patterns ->
            PyStr.contains (PyStr.lower pattern) (PyStr.lower content) = true ->
            fst (system_generated sent content sender id) = true) as Hmark.
  { intros sent content sender pattern Hin Hocc.
    apply system_generated_true_iff. right. left. exists pattern.
    split; [done|].
    destruct (system_patterns_solid _ Hin). by apply contains_strip. }
  split; [exact Hmark|].
  intros w r w' Hbody Hrun.
  eapply rejected_not_handled; [|exact Hrun].
  intros t m sender Hm.
  destruct (Hbody m) as (pattern & Hin & Hocc); [by exists t|].
  by eapply Hmark.
Qed.

Lemma pattern_anywhere_blocks_message_witness :
  fst (process_message package_out demo_start "m1" idle_world)
    <> Returned Handled
  /\ agent_calls (snd (process_message package_out demo_start "m1" idle_world))
     = [].
Proof.
  destruct (process_message package_out demo_start "m1" idle_world)
    as [r w'] eqn:Erun.
  destruct (proj2 (pattern_anywhere_blocks_message package_out demo_start "m1")
              idle_world r w') as [Hr Hsame]; [|exact Erun|].
  - intros m [t Hm]. vm_compute in Hm. injection Hm as <-.
    exists "ack". split; [|by vm_compute].
    apply list_elem_of_here.
  - split; [exact Hr | apply Hsame].
Defined.

(** ** The empty-message branch *)

Lemma gates_never_empty out sst id w v w' :
  gates out sst id w = (Returned (inl v), w') -> v <> EmptyMessage.
Proof.
  intros Hrun. unfold gates in Hrun.
  unfold bind at 1 in Hrun.
  destruct (retry (get_message_timestamp out id) w) as [[ts|e] w1];
    [|discriminate].
  destruct (is_stale sst ts); [by injection Hrun as <- <-|].
  unfold bind at 1 in Hrun.
  destruct (is_valid_claude_email out id w1) as [[valid|e] w2]; [|discriminate].
  destruct (negb (fst valid)); [by injection Hrun as <- <-|].
  unfold bind at 1 in Hrun.
  destruct (retry (get_message_content out id) w2) as [[mc|e] w3];
    [|discriminate].
  unfold bind at 1 in Hrun.
  destruct (retry (get_sender_email out id) w3) as [[se|e] w4]; [|discriminate].
  destruct mc as [content|]; [|by destruct se; injection Hrun as <- <-].
  destruct se as [sender|]; [|by injection Hrun as <- <-].
  unfold bind at 1, is_system_generated_email, bind at 1, get_world, ret at 1
    in Hrun.
  simpl in Hrun.
  destruct (fst (system_generated (sent_message_ids w4) content sender id))
    eqn:Esys; [by injection Hrun as <- <-|].
  unfold bind in Hrun.
  destruct (retry (get_subject out id) w4) as [[[subject|]|e] w5];
    try discriminate; [|by injection Hrun as <- <-].
  destruct (PyStr.is_empty (PyStr.strip content)) eqn:Eempty;
    [|discriminate].
  rewrite blank_is_system_generated in Esys by done. discriminate.
Qed.

(** X13. The "Skipping empty message" branch of the candidate loop (lines
    299-302) is never taken: a body that is empty after trimming has fewer
    than 10 characters, so the system-generated check before it has already
    skipped the message.  No run of [process_message] ends with the verdict
    [EmptyMessage]. *)
Theorem empty_message_branch_is_dead :
  forall out server_start_time message_id w r w',
    process_message out server_start_time message_id w = (r, w') ->
    r <> Returned EmptyMessage.
Proof.
  intros out sst id w r w' Hrun.
  unfold process_message, bind at 1, is_processed, bind at 1, get_world, ret at 1
    in Hrun.
  simpl in Hrun.
  destruct (bool_decide (id ∈ processed_messages w)).
  { by injection Hrun as <- <-. }
  unfold bind at 1 in Hrun.
  destruct (gates out sst id w) as [[[v|[[content sender] subject]]|e] w1]
    eqn:Eg.
  - injection Hrun as <- <-. intros [= ->].
    by apply (gates_never_empty _ _ _ _ _ _ Eg).
  - unfold bind in Hrun.
    destruct (mark_processed id w1) as [[?|?] ?];
      [destruct (respond _ _ _ _ _ _) as [[?|?] ?]|];
      by injection Hrun as <- <-.
  - by injection Hrun as <- <-.
Qed.

Lemma empty_message_branch_is_dead_witness :
  fst (process_message blank_out demo_start "m1" idle_world)
    <> Returned EmptyMessage.
Proof.
  destruct (process_message blank_out demo_start "m1" idle_world)
    as [r w'] eqn:Erun.
  apply (empty_message_branch_is_dead blank_out demo_start "m1" idle_world
           r w' Erun).
Defined.

(** ** Notifications and the transport *)

Lemma process_notification_returns out sst n w :
  fst (process_notification out sst n w) = Returned tt.
Proof.
  unfold process_notification, try_except.
  match goal with
  | |- context [match ?m w with _ => _ end] => by destruct (m w) as [[[]|e] w1]
  end.
Qed.

(** X14. [process_notification] never raises: whatever the mail API, the
    agent or the clock do, it returns normally.  So the pull-mode [callback]
    acknowledges an envelope exactly when its payload decodes and the wait on
    the worker does not time out, whatever happened to the candidates; and an
    envelope that does not decode is nacked without any processing. *)
Theorem callback_acks_unless_undecodable_or_late :
  forall out server_start_time message w,
    (forall notification_data,
       fst (process_notification out server_start_time notification_data w)
       = Returned tt)
    /\ (fst (callback out server_start_time message w) = Ack <->
        (exists notification_data, decoded message = Returned notification_data)
        /\ times_out message = false)
    /\ (forall e, decoded message = Raised e ->
        callback out server_start_time message w = (Nack, w)).
Proof.
  intros out sst message w.
  split; [intros n; apply process_notification_returns|]. split.
  - unfold callback. destruct (decoded message) as [n|e].
    + pose proof (process_notification_returns out sst n w) as Hret.
      destruct (process_notification out sst n w) as [r w1]. simpl in Hret.
      subst r. destruct (times_out message); simpl.
      * split; [done | by intros [_ ?]].
      * split; [eauto | done].
    + simpl. split; [done | by intros [[n ?] _]].
  - intros e He. unfold callback. by rewrite He.
Qed.

Lemma callback_acks_unless_undecodable_or_late_witness :
  fst (callback flaky_out demo_start
         (Envelope (Returned demo_notification) false) idle_world) = Ack
  /\ callback demo_out demo_start
       (Envelope (Raised (Exn ValueError "Expecting value")) false) idle_world
     = (Nack, idle_world).
Proof.
  pose proof (callback_acks_unless_undecodable_or_late flaky_out demo_start
                (Envelope (Returned demo_notification) false) idle_world)
    as (_ & Hack & _).
  pose proof (callback_acks_unless_undecodable_or_late demo_out demo_start
                (Envelope (Raised (Exn ValueError "Expecting value")) false)
                idle_world) as (_ & _ & Hnack).
  split.
  - apply Hack. split; [by eexists | done].
  - by eapply Hnack.
Defined.

Lemma process_message_keeps_history out sst id w r w' :
  process_message out sst id w = (r, w') ->
  processed_history_ids w' = processed_history_ids w.
Proof.
  intros Hrun.
  unfold process_message, bind at 1, is_processed, bind at 1, get_world, ret at 1
    in Hrun.
  simpl in Hrun.
  destruct (bool_decide (id ∈ processed_messages w)).
  { by injection Hrun as <- <-. }
  unfold bind at 1 in Hrun.
  destruct (gates out sst id w) as [[[v|[[content sender] subject]]|e] w1]
    eqn:Eg; pose proof (gates_quiet _ _ _ _ _ _ Eg) as (_ & Hh & _).
  - by injection Hrun as <- <-.
  - unfold bind at 1, mark_processed, modify in Hrun. simpl in Hrun.
    unfold bind in Hrun.
    destruct (respond out id content sender subject _) as [[[]|e] w2] eqn:Er;
      injection Hrun as <- <-;
      destruct (respond_effects _ _ _ _ _ _ _ _ Er) as (_ & Hh2 & _);
      by rewrite Hh2.
  - by injection Hrun as <- <-.
Qed.

Lemma loop_keeps_history out sst ids : forall w r w',
  for_each ids (fun id => process_message out sst id ;; ret tt) w = (r, w') ->
  processed_history_ids w' = processed_history_ids w.
Proof.
  induction ids as [|id ids IH]; intros w r w' Hrun.
  - by injection Hrun as <- <-.
  - cbn [for_each] in Hrun. unfold bind at 1 in Hrun. unfold bind at 1 in Hrun.
    destruct (process_message out sst id w) as [[v|e] w1] eqn:Estep;
      pose proof (process_message_keeps_history _ _ _ _ _ _ Estep) as Hh.
    + cbn [ret] in Hrun. rewrite (IH _ _ _ Hrun). exact Hh.
    + by injection Hrun as <- <-.
Qed.

Lemma resolve_keeps_history out h w r w' :
  resolve out h w = (r, w') ->
  processed_history_ids w' = processed_history_ids w.
Proof.
  intros Hrun.
  eapply (preserves_resolve out
            (fun w0 => processed_history_ids w0 = processed_history_ids w));
    [|exact Hrun|done].
  intros w0 Hw0. split; [|intros d]; exact Hw0.
Qed.

Lemma process_notification_claims out sst n w r w' :
  process_notification out sst n w = (r, w') ->
  historyId n ∈ processed_history_ids w'.
Proof.
  intros Hrun. unfold process_notification, try_except in Hrun.
  destruct (cleanup_returns out w) as (w1 & Hclean & _).
  unfold bind at 1 in Hrun. rewrite Hclean in Hrun.
  unfold bind at 1, claim_history, bind at 1, get_world, ret at 1 in Hrun.
  simpl in Hrun.
  case_bool_decide as Hseen.
  { simpl in Hrun. by injection Hrun as <- <-. }
  unfold bind at 1, modify in Hrun. simpl in Hrun.
  unfold bind at 1 in Hrun.
  match type of Hrun with
  | context [resolve out (historyId n) ?w2] =>
      assert (historyId n ∈ processed_history_ids w2) as Hin
        by (simpl; apply elem_of_union_l; by apply elem_of_singleton);
      destruct (resolve out (historyId n) w2) as [[recent|e] w3] eqn:Eres;
      pose proof (resolve_keeps_history _ _ _ _ _ Eres) as Hh3
  end.
  2:{ injection Hrun as <- <-. by rewrite Hh3. }
  destruct recent as [ids|]; [|injection Hrun as <- <-; by rewrite Hh3].
  destruct (for_each ids _ w3) as [[[]|e] w4] eqn:Eloop;
    pose proof (loop_keeps_history _ _ _ _ _ _ Eloop) as Hh4;
    injection Hrun as <- <-; by rewrite Hh4, Hh3.
Qed.

(** X15. Every notification leaves its history id in the processed set:
    whether its candidates were handled, skipped, could not be resolved, or
    an exception cut the processing short, the id is claimed when
    [process_notification] returns. *)
Theorem history_id_is_always_claimed :
  forall out server_start_time notification_data w r w',
    process_notification out server_start_time notification_data w = (r, w') ->
    historyId notification_data ∈ processed_history_ids w'.
Proof. intros. by eapply process_notification_claims. Qed.

Lemma history_id_is_always_claimed_witness :
  Some "h1" ∈
    processed_history_ids
      (snd (process_notification down_out demo_start demo_notification
              idle_world)).
Proof.
  destruct (process_notification down_out demo_start demo_notification
              idle_world) as [r w'] eqn:Erun.
  apply (history_id_is_always_claimed down_out demo_start demo_notification
           idle_world r w' Erun).
Defined.

Lemma process_notification_seen out sst n w :
  historyId n ∈ processed_history_ids w ->
  ~ (Qc_of_Z 3600 < wall_clock out (tick w) - last_cleanup_time w)%Qc ->
  process_notification out sst n w = (Returned tt, bump w).
Proof.
  intros Hin Hgate. unfold process_notification, try_except.
  unfold bind at 1. rewrite cleanup_closed by done.
  unfold bind at 1, claim_history, bind at 1, get_world, ret at 1. simpl.
  by rewrite bool_decide_eq_true_2.
Qed.

(** X16. A redelivered notification does nothing.  When a notification has
    been processed once, with whatever outcome, and is delivered again before
    the next compaction is due, the second [process_notification] reads the
    clock and returns: no mail API call, no reply, no agent call, no change
    to the sets. *)
Theorem redelivery_is_skipped :
  forall out server_start_time notification_data w r w1,
    process_notification out server_start_time notification_data w = (r, w1) ->
    ~ (Qc_of_Z 3600 < wall_clock out (tick w1) - last_cleanup_time w1)%Qc ->
    process_notification out server_start_time notification_data w1 =
      (Returned tt, bump w1).
Proof.
  intros out sst n w r w1 Hfirst Hgate.
  apply process_notification_seen; [|done].
  by eapply process_notification_claims.
Qed.

Lemma redelivery_is_skipped_witness :
  let w1 := snd (process_notification demo_out demo_start demo_notification
                   idle_world) in
  process_notification demo_out demo_start demo_notification w1 =
    (Returned tt, bump w1).
Proof.
  destruct (process_notification demo_out demo_start demo_notification
              idle_world) as [r w1] eqn:Erun.
  apply (redelivery_is_skipped demo_out demo_start demo_notification
           idle_world r w1 Erun).
  simpl. apply (bool_decide_eq_false_1 _).
  replace w1 with (snd (process_notification demo_out demo_start
                          demo_notification idle_world)) by (by rewrite Erun).
  by vm_compute.
Defined.

(** X17. A history that has entries but adds no message yields no
    candidates and no fallback: when the history lookup returns a non-empty
    list none of whose entries has [messagesAdded], the unread query is not
    made, no candidate is examined, and [process_notification] returns right
    after the lookup. *)
Theorem history_without_added_messages :
  forall out server_start_time notification_data w w1 w2 w3 item items,
    cleanup_processed_messages out w = (Returned tt, w1) ->
    claim_history (historyId notification_data) w1 = (Returned true, w2) ->
    retry (get_history out (historyId notification_data)) w2 =
      (Returned (Some (item :: items)), w3) ->
    extract_added (item :: items) = [] ->
    resolve out (historyId notification_data) w2 = (Returned (Some []), w3)
    /\ process_notification out server_start_time notification_data w =
         (Returned tt, w3).
Proof.
  intros out sst n w w1 w2 w3 item items Hclean Hclaim Hhist Hnone.
  assert (resolve out (historyId n) w2 = (Returned (Some []), w3)) as Hres.
  { unfold resolve, try_except, bind. rewrite Hhist. unfold ret.
    by rewrite Hnone. }
  split; [done|].
  unfold process_notification, try_except.
  unfold bind at 1. rewrite Hclean.
  unfold bind at 1. rewrite Hclaim. simpl.
  unfold bind at 1. by rewrite Hres.
Qed.

Lemma history_without_added_messages_witness :
  process_notification label_change_out demo_start demo_notification idle_world
  = (Returned tt,
     with_processed_history_ids {[ Some "h1" ]} (advance 2 [] idle_world)).
Proof.
  apply (history_without_added_messages label_change_out demo_start
           demo_notification idle_world
           (advance 1 [] idle_world)
           (with_processed_history_ids {[ Some "h1" ]} (advance 1 [] idle_world))
           (with_processed_history_ids {[ Some "h1" ]} (advance 2 [] idle_world))
           (HistoryItem None) []); by vm_compute.
Defined.

(** ** The replies of one exchange *)

Lemma send_and_track_outbox out thread sender subject body w :
  (forall t r, exists o, api_send out t r = Returned o) ->
  exists w',
    send_and_track out thread sender subject body w = (Returned tt, w')
    /\ tick w' = S (tick w)
    /\ outbox w' =
         Reply thread sender (reply_subject_for subject) body :: outbox w
    /\ agent_calls w' = agent_calls w.
Proof.
  intros Hsend.
  destruct (Hsend (tick w)
              (Reply thread sender (reply_subject_for subject) body)) as [o Ho].
  eexists. split; [by apply (send_and_track_answered _ _ _ _ _ _ o)|].
  done.
Qed.

(** X18. The replies of one exchange, in order.  For a candidate whose
    thread id is found, with a mail API that answers every send, [respond]
    returns normally, invokes the agent exactly once, and hands over: first
    the acknowledgment, before the agent is started; then one progress reply
    for each forwarded chunk, in stream order; last the closing reply, which
    is the error notice when the agent run failed, the final result with the
    joined response when it succeeded, and nothing when the response is
    empty. *)
Theorem exchange_replies_in_order :
  forall out message_id content sender subject w thread w1,
    retry (get_thread_id out message_id) w = (Returned (Some thread), w1) ->
    PyStr.is_empty thread = false ->
    (forall t r, exists o, api_send out t r = Returned o) ->
    let script := agent_session out (S (tick w1)) content sender in
    let progress :=
      map (progress_reply thread sender subject)
          (forwarded 0 (agent_chunks script)) in
    let ack := Reply thread sender (reply_subject_for subject) ack_email in
    let result := respond out message_id content sender subject w in
    fst result = Returned tt
    /\ agent_calls (snd result) = (content, sender) :: agent_calls w
    /\ outbox (snd result) =
         (closing_reply thread sender subject script
            ++ rev progress ++ ack :: outbox w)%list.
Proof.
  intros out id content sender subject w thread w1 Hthread Hne Hsend
    script progress ack result.
  assert (same_ledger w w1) as (_ & _ & _ & _ & Hout1 & Hcalls1).
  { eapply (preserves_retry _ (same_ledger_stable w));
      [|exact Hthread|apply same_ledger_refl].
    by apply preserves_get_thread_id, same_ledger_stable. }
  subst result.
  destruct (respond out id content sender subject w) as [r wf] eqn:Erun.
  cbn [fst snd].
  unfold respond in Erun. unfold bind at 1 in Erun. rewrite Hthread in Erun.
  change (default EmptyString (Some thread)) with thread in Erun.
  cbn [truthy_str] in Erun. rewrite Hne in Erun. cbn [negb andb] in Erun.
  destruct (send_and_track_outbox out thread sender subject ack_email w1 Hsend)
    as (w2 & Hack & Ht2 & Hout2 & Hcalls2).
  unfold bind at 1 in Erun. rewrite Hack in Erun.
  unfold try_except at 1, bind at 1, process_email_request_streaming in Erun.
  unfold try_except at 1, bind at 1, start_session in Erun.
  rewrite Ht2 in Erun. fold script in Erun.
  unfold bind at 1 in Erun.
  rewrite (stream_progress out thread sender subject (agent_chunks script)
             Hne Hsend [] (with_agent_call (content, sender) (bump w2)))
    in Erun.
  cbn [List.length app] in Erun. fold progress in Erun.
  assert (forall body w3,
            outbox w3 = (rev progress ++ ack :: outbox w)%list ->
            agent_calls w3 = (content, sender) :: agent_calls w ->
            exists w4,
              send_and_track out thread sender subject body w3 =
                (Returned tt, w4)
              /\ agent_calls w4 = (content, sender) :: agent_calls w
              /\ outbox w4 =
                   (Reply thread sender (reply_subject_for subject) body
                    :: rev progress ++ ack :: outbox w)%list) as Hclose.
  { intros body w3 Ho Hc.
    destruct (send_and_track_outbox out thread sender subject body w3 Hsend)
      as (w4 & Hfin & _ & Hout4 & Hcalls4).
    exists w4. by rewrite Hout4, Hcalls4, Ho, Hc. }
  match type of Erun with
  | context [World ?a ?b ?c ?d ?e ?f ?g ?h] =>
      set (w3 := World a b c d e f g h) in Erun
  end.
  assert (outbox w3 = (rev progress ++ ack :: outbox w)%list) as Ho3
    by (subst w3; simpl; by rewrite Hout2, Hout1).
  assert (agent_calls w3 = (content, sender) :: agent_calls w) as Hc3
    by (subst w3; simpl; by rewrite Hcalls2, Hcalls1).
  clearbody w3.
  unfold closing_reply, response_of.
  destruct (agent_failure script) as [err|].
  - unfold raise in Erun. cbn beta iota in Erun.
    match type of Erun with
    | context [send_and_track out thread sender subject ?body w3] =>
        destruct (Hclose body w3 Ho3 Hc3) as (w4 & Hfin & Hc4 & Ho4);
        rewrite Hfin in Erun
    end.
    injection Erun as <- <-. done.
  - destruct (agent_chunks script) as [|c cs] eqn:Echunks.
    + unfold ret at 1 in Erun. cbn beta iota in Erun.
      cbn [PyStr.is_empty negb] in Erun.
      match type of Erun with
      | context [send_and_track out thread sender subject ?body w3] =>
          destruct (Hclose body w3 Ho3 Hc3) as (w4 & Hfin & Hc4 & Ho4);
          rewrite Hfin in Erun
      end.
      injection Erun as <- <-. done.
    + unfold ret at 1 in Erun. cbn beta iota in Erun.
      destruct (PyStr.is_empty (PyStr.join_lines (c :: cs))) eqn:Eresp;
        cbn [negb] in Erun.
      * injection Erun as <- <-. done.
      * match type of Erun with
        | context [send_and_track out thread sender subject ?body w3] =>
            destruct (Hclose body w3 Ho3 Hc3) as (w4 & Hfin & Hc4 & Ho4);
            rewrite Hfin in Erun
        end.
        injection Erun as <- <-. done.
Qed.

Lemma exchange_replies_in_order_witness :
  map reply_body
    (outbox (snd (respond failing_agent_out "m1" "do the thing" "a@x.com"
                    "CLAUDE" idle_world))) =
    ["Claude processing failed with error: Error launching Claude session: exit status 1";
     "ack"].
Proof.
  pose proof (exchange_replies_in_order failing_agent_out "m1" "do the thing"
                "a@x.com" "CLAUDE" idle_world "t1" (advance 1 [] idle_world)
                eq_refl eq_refl) as Hthm.
  destruct Hthm as (_ & _ & Hout).
  - intros t r. eexists. reflexivity.
  - rewrite Hout. reflexivity.
Defined.

(** ** The command-line [process] command *)

Lemma process_email_request_effects out content sender w r w' :
  process_email_request out content sender w = (r, w') ->
  w' = with_agent_call (content, sender) (bump w).
Proof.
  unfold process_email_request, process_email_request_streaming.
  unfold try_except, bind at 1, start_session.
  assert (forall chunks w0,
            stream (fun (s : unit) (_ : string) => ret s) tt chunks w0 =
              (Returned tt, w0)) as Hstream.
  { induction chunks as [|c chunks IH]; intros w0; [done|].
    cbn [stream]. unfold bind. simpl. apply IH. }
  unfold bind. rewrite Hstream.
  destruct (agent_failure _); [by intros [= _ <-]|].
  by destruct (agent_chunks _); intros [= _ <-].
Qed.

Lemma get_sender_email_fetched out id w m :
  api_get_message out (tick w) id = Returned m ->
  get_sender_email out id w = (Returned (sender_of m), bump w).
Proof.
  intros Hm. unfold get_sender_email, sender_of, bind, get_message, external.
  rewrite Hm. by destruct (find_header _ _).
Qed.

Lemma get_recipient_email_fetched out id w m :
  api_get_message out (tick w) id = Returned m ->
  get_recipient_email out id w = (Returned (recipient_of m), bump w).
Proof.
  intros Hm. unfold get_recipient_email, recipient_of, bind, get_message,
    external.
  rewrite Hm. by destruct (find_header _ _).
Qed.

Lemma get_subject_fetched out id w m :
  api_get_message out (tick w) id = Returned m ->
  get_subject out id w = (Returned (subject_of m), bump w).
Proof.
  intros Hm. unfold get_subject, subject_of, bind, get_message, external.
  rewrite Hm. by destruct (find_header _ _).
Qed.

Lemma get_message_content_fetched out id w m :
  api_get_message out (tick w) id = Returned m ->
  get_message_content out id w = (Returned (body_of m), bump w).
Proof.
  intros Hm. unfold get_message_content, bind, get_message, external.
  by rewrite Hm.
Qed.

Lemma get_message_content_raises out id w e :
  api_get_message out (tick w) id = Raised e ->
  get_message_content out id w = (Raised e, bump w).
Proof.
  intros He. unfold get_message_content, bind.
  by rewrite (get_message_raises _ _ _ _ He).
Qed.

Lemma bump_advance n sl w : bump (advance n sl w) = advance (S n) sl w.
Proof. unfold bump, advance. simpl. f_equal. lia. Qed.

Lemma bump_is_advance w : bump w = advance 1 [] w.
Proof. unfold bump, advance. simpl. f_equal. lia. Qed.

Lemma process_command_without_id out message_id w :
  message_id = None \/ message_id = Some EmptyString ->
  process_command out message_id w = (Returned 1, w).
Proof. by intros [->| ->]. Qed.

Lemma process_command_fetch_fails out id w k e :
  PyStr.is_empty id = false ->
  k < 4 ->
  (forall j, j < k ->
     exists m, api_get_message out (tick w + j) id = Returned m) ->
  api_get_message out (tick w + k) id = Raised e ->
  process_command out (Some id) w = (Returned 1, advance (S k) [] w).
Proof.
  intros Hid Hk Hbefore Hfail. unfold process_command. rewrite Hid.
  unfold try_except at 1.
  assert (forall j, tick (advance j [] w) = tick w + j) as Htick by done.
  destruct k as [|k].
  { rewrite Nat.add_0_r in Hfail.
    unfold bind at 1. rewrite (get_sender_email_raises _ _ _ _ Hfail).
    by rewrite bump_is_advance. }
  destruct (Hbefore 0) as [ms Hms]; [lia|]. rewrite Nat.add_0_r in Hms.
  unfold bind at 1. rewrite (get_sender_email_fetched _ _ _ _ Hms).
  rewrite bump_is_advance.
  destruct k as [|k].
  { unfold bind at 1.
    rewrite (get_recipient_email_raises _ _ _ e) by (by rewrite Htick).
    by rewrite bump_advance. }
  destruct (Hbefore 1) as [mr Hmr]; [lia|].
  unfold bind at 1.
  rewrite (get_recipient_email_fetched _ _ _ mr) by (by rewrite Htick).
  rewrite bump_advance.
  destruct k as [|k].
  { unfold bind at 1.
    rewrite (get_subject_raises _ _ _ e) by (by rewrite Htick).
    by rewrite bump_advance. }
  destruct (Hbefore 2) as [mj Hmj]; [lia|].
  unfold bind at 1.
  rewrite (get_subject_fetched _ _ _ mj) by (by rewrite Htick).
  rewrite bump_advance.
  destruct k as [|k]; [|lia].
  unfold bind at 1.
  rewrite (get_message_content_raises _ _ _ e) by (by rewrite Htick).
  by rewrite bump_advance.
Qed.

Lemma process_command_fetched out id w ms mr mj mc :
  PyStr.is_empty id = false ->
  api_get_message out (tick w) id = Returned ms ->
  api_get_message out (tick w + 1) id = Returned mr ->
  api_get_message out (tick w + 2) id = Returned mj ->
  api_get_message out (tick w + 3) id = Returned mc ->
  process_command out (Some id) w =
    if cli_valid (sender_of ms) (recipient_of mr) (subject_of mj)
    then (Returned 0,
          with_agent_call (body_of mc, sender_of ms) (advance 5 [] w))
    else (Returned 1, advance 4 [] w).
Proof.
  intros Hid Hms Hmr Hmj Hmc. unfold process_command. rewrite Hid.
  assert (forall j, tick (advance j [] w) = tick w + j) as Htick by done.
  unfold try_except at 1.
  unfold bind at 1. rewrite (get_sender_email_fetched _ _ _ _ Hms).
  rewrite bump_is_advance.
  unfold bind at 1.
  rewrite (get_recipient_email_fetched _ _ _ mr) by (by rewrite Htick).
  rewrite bump_advance.
  unfold bind at 1.
  rewrite (get_subject_fetched _ _ _ mj) by (by rewrite Htick).
  rewrite bump_advance.
  unfold bind at 1.
  rewrite (get_message_content_fetched _ _ _ mc) by (by rewrite Htick).
  rewrite bump_advance.
  destruct (cli_valid _ _ _); cbn [negb]; [|done].
  unfold try_except, bind.
  destruct (process_email_request out (body_of mc) (sender_of ms)
              (advance 4 [] w)) as [[response|e] w5] eqn:E5;
    rewrite (process_email_request_effects _ _ _ _ _ _ E5), bump_advance; done.
Qed.



(** ** Agent calls against processed ids *)

Lemma resolve_quiet out h w r w' :
  resolve out h w = (r, w') -> same_ledger w w'.
Proof.
  intros Hrun.
  eapply (preserves_resolve out _ (same_ledger_stable w));
    eauto using same_ledger_refl.
Qed.

(** X20. Between compactions, agent invocations are paid for by processed
    ids.  A notification handled while no compaction is due never removes an
    id from the processed set, and makes at most as many agent invocations as
    it adds ids to that set; so over any sequence of such notifications,
    taken one after the other, the number of agent invocations never exceeds
    the number of ids marked processed. *)
Theorem agent_calls_bounded_by_processed_ids :
  forall out server_start_time notification_data w r w',
    ~ (Qc_of_Z 3600 < wall_clock out (tick w) - last_cleanup_time w)%Qc ->
    process_notification out server_start_time notification_data w = (r, w') ->
    processed_messages w ⊆ processed_messages w'
    /\ List.length (agent_calls w') + size (processed_messages w)
       <= List.length (agent_calls w) + size (processed_messages w').
Proof.
  intros out sst n w r w' Hgate Hrun.
  unfold process_notification, try_except in Hrun.
  unfold bind at 1 in Hrun. rewrite cleanup_closed in Hrun by done.
  unfold bind at 1, claim_history, bind at 1, get_world, ret at 1 in Hrun.
  simpl in Hrun.
  case_bool_decide as Hseen.
  { simpl in Hrun. injection Hrun as <- <-. simpl. split; [done|lia]. }
  unfold bind at 1, modify in Hrun. simpl in Hrun.
  unfold bind at 1 in Hrun.
  match type of Hrun with
  | context [resolve out (historyId n) ?w2] =>
      destruct (resolve out (historyId n) w2) as [[recent|e] w3] eqn:Eres;
      pose proof (resolve_quiet _ _ _ _ _ Eres) as (Hp & _ & _ & _ & _ & Ha)
  end.
  all: simpl in Hp, Ha.
  2:{ injection Hrun as <- <-. rewrite Hp, Ha. split; [done|lia]. }
  destruct recent as [ids|].
  2:{ injection Hrun as <- <-. rewrite Hp, Ha. split; [done|lia]. }
  destruct (for_each ids _ w3) as [[[]|e] w4] eqn:Eloop;
    destruct (loop_effects _ _ _ _ _ _ Eloop) as (Hsub & _ & Hcount);
    injection Hrun as <- <-; rewrite Hp in Hsub, Hcount;
    rewrite Ha in Hcount; done.
Qed.

Lemma agent_calls_bounded_by_processed_ids_witness :
  let w' := snd (process_notification demo_out demo_start demo_notification
                   idle_world) in
  List.length (agent_calls w') + size (processed_messages idle_world)
  <= List.length (agent_calls idle_world) + size (processed_messages w').
Proof.
  destruct (process_notification demo_out demo_start demo_notification
              idle_world) as [r w'] eqn:Erun.
  apply (agent_calls_bounded_by_processed_ids demo_out demo_start
           demo_notification idle_world r w'); [|exact Erun].
  apply (bool_decide_eq_false_1 _). by vm_compute.
Defined.
